(** * FieldTextBox: the row wrapper and layout sizer of src/index.js

    A shallow embedding of the [FieldTextBox] class of
    blockly-field-text-box (src/index.js) and the properties of its
    text layout: option handling in the constructor, the static
    [splitOnRows] word wrapper, [render_]/[updateSize_] sizing and the
    key dispatch of [onHtmlInputKeyDown_]. *)

From Stdlib Require Import ZArith QArith Lia Ascii String DecimalZ DecimalPos.
From stdpp Require Import base option list strings gmap.

Local Open Scope Z_scope.

(** ** JavaScript strings

    A JS string is a sequence of UTF-16 code units; [.length] counts
    code units and a regular expression without the [u] flag matches
    code unit by code unit.  A code unit is a number below 65536. *)

Abbreviation code_unit := N.
Abbreviation jsstring := (list N).

(** The code units of an ASCII/Latin-1 literal. *)
Fixpoint str (s : string) : jsstring :=
  match s with
  | EmptyString => []
  | String a s' => N_of_ascii a :: str s'
  end.

Definition LF : code_unit := 10%N.
Definition SP : code_unit := 32%N.
Definition NBSP : code_unit := 160%N.
Definition RLM : code_unit := 8207%N.

(** The regular expression [/\n/] at one code unit. *)
Definition nl (c : code_unit) : bool := (c =? LF)%N.

(** The character class [\s]: WhiteSpace and LineTerminator of
    ECMAScript (TAB, LF, VT, FF, CR, SP, NBSP, U+1680, U+2000..U+200A,
    LS, PS, U+202F, U+205F, U+3000, U+FEFF). *)
Definition space (c : code_unit) : bool :=
  ((9 <=? c) && (c <=? 13) || (c =? 32) || (c =? 160) || (c =? 5760)
   || (8192 <=? c) && (c <=? 8202) || (c =? 8232) || (c =? 8233)
   || (c =? 8239) || (c =? 8287) || (c =? 12288) || (c =? 65279))%N.

(** [String.prototype.split] with a regular expression that matches
    exactly one code unit of class [sep]: the pieces between the
    matches, empty pieces included; the empty string gives one empty
    piece. *)
Fixpoint split (sep : code_unit -> bool) (s : jsstring) : list jsstring :=
  match s with
  | [] => [[]]
  | c :: s' =>
      if sep c then [] :: split sep s'
      else match split sep s' with
           | [] => [[c]]
           | piece :: pieces => (c :: piece) :: pieces
           end
  end.

(** A string with no code unit of class [sep]. *)
Definition free (sep : code_unit -> bool) (s : jsstring) : Prop :=
  Forall (fun c => sep c = false) s.

(** [Array.prototype.join]. *)
Fixpoint join (sep : jsstring) (xs : list jsstring) : jsstring :=
  match xs with
  | [] => []
  | [x] => x
  | x :: xs' => x ++ sep ++ join sep xs'
  end.

(** [String.prototype.replace] with the global one-code-unit pattern
    [/\s/g]: every match is replaced by the code unit [r]. *)
Definition replace_spaces (r : code_unit) (s : jsstring) : jsstring :=
  (fun c => if space c then r else c) <$> s.

(** [String.prototype.substring(0, n)]; a negative [n] counts as 0. *)
Definition substring0 (s : jsstring) (n : Z) : jsstring := take (Z.to_nat n) s.

(** The values an option can hold.  A Number is [JInt z] where it is
    an integer with [|z| < 2^53], [JNaN] or an infinity.  Every other
    value (a Number with a fraction, a Number of 2^53 and beyond, a
    BigInt, an array, an object) is [JOther s], with the string [s]
    that ToString converts it to: the Number 1e21 is
    [JOther "1e+21"]. *)
Inductive JsValue :=
| JUndefined
| JNull
| JBool (b : bool)
| JNaN
| JInfinity (negative : bool)
| JInt (z : Z)
| JString (s : jsstring)
| JOther (s : jsstring).

(** The result of [parseInt] and of arithmetic on it: NaN or an
    integer.  The two zeros of JS are one value here: [Math.abs] and
    [||] treat them alike. *)
Inductive Number :=
| NaN
| Num (z : Z).

(** The decimal digits of [Decimal.uint], as code units. *)
Fixpoint uint_units (d : Decimal.uint) : jsstring :=
  match d with
  | Decimal.Nil => []
  | Decimal.D0 d' => 48%N :: uint_units d'
  | Decimal.D1 d' => 49%N :: uint_units d'
  | Decimal.D2 d' => 50%N :: uint_units d'
  | Decimal.D3 d' => 51%N :: uint_units d'
  | Decimal.D4 d' => 52%N :: uint_units d'
  | Decimal.D5 d' => 53%N :: uint_units d'
  | Decimal.D6 d' => 54%N :: uint_units d'
  | Decimal.D7 d' => 55%N :: uint_units d'
  | Decimal.D8 d' => 56%N :: uint_units d'
  | Decimal.D9 d' => 57%N :: uint_units d'
  end.

(** [Number::toString] at radix 10 for an integer below 10^21: the
    decimal digits, after a minus sign when negative.  From 10^21 on
    JS prints the exponent form, which this function does not give:
    it is used for [|z| < 2^53] only. *)
Definition int_to_string (z : Z) : jsstring :=
  match Z.to_int z with
  | Decimal.Pos d => uint_units d
  | Decimal.Neg d => 45%N :: uint_units d
  end.

(** The abstract operation ToString. *)
Definition ToString (v : JsValue) : jsstring :=
  match v with
  | JUndefined => str "undefined"
  | JNull => str "null"
  | JBool true => str "true"
  | JBool false => str "false"
  | JNaN => str "NaN"
  | JInfinity false => str "Infinity"
  | JInfinity true => str "-Infinity"
  | JInt z => int_to_string z
  | JString s => s
  | JOther s => s
  end.

Definition digit (c : code_unit) : option Z :=
  if ((48 <=? c) && (c <=? 57))%N then Some (Z.of_N c - 48) else None.

(** The value of the longest prefix of decimal digits of [s], read
    after the digits already accumulated in [acc]. *)
Fixpoint parse_digits (s : jsstring) (acc : Z) : Z :=
  match s with
  | [] => acc
  | c :: s' =>
      match digit c with
      | Some d => parse_digits s' (10 * acc + d)
      | None => acc
      end
  end.

Fixpoint trim_start (s : jsstring) : jsstring :=
  match s with
  | [] => []
  | c :: s' => if space c then trim_start s' else s
  end.

(** One leading sign is removed. *)
Definition strip_sign (s : jsstring) : jsstring :=
  match s with
  | c :: s' => if ((c =? 45) || (c =? 43))%N then s' else s
  | [] => []
  end.

(** [parseInt(s, 10)] on a string: leading white space is skipped, the
    sign is -1 when a minus sign comes first, one leading sign is
    removed, and the longest run of decimal digits is read; NaN when
    there is no digit.  The result is the integer that the digits
    denote; [parseInt] returns the double nearest to it, which is the
    same number below 2^53. *)
Definition parseInt10_string (s : jsstring) : Number :=
  let s := trim_start s in
  let sign :=
    match s with
    | c :: _ => if (c =? 45)%N then -1 else 1
    | [] => 1
    end in
  let s := strip_sign s in
  match s with
  | c :: _ =>
      match digit c with
      | Some _ => Num (sign * parse_digits s 0)
      | None => NaN
      end
  | [] => NaN
  end.

(** [parseInt(v, 10)]: the argument is converted by ToString first. *)
Definition parseInt10 (v : JsValue) : Number := parseInt10_string (ToString v).

(** A string is numeric for [parseInt] when, after leading white space
    and one optional sign, it begins with a decimal digit. *)
Definition numeric (s : jsstring) : bool :=
  match strip_sign (trim_start s) with
  | c :: _ => bool_decide (is_Some (digit c))
  | [] => false
  end.

Definition Math_abs (x : Number) : Number :=
  match x with
  | NaN => NaN
  | Num z => Num (Z.abs z)
  end.

(** [x || d] for a Number [x] and a non-zero Number [d]: NaN and zero
    are falsy. *)
Definition or_number (x : Number) (d : Z) : Z :=
  match x with
  | NaN => d
  | Num z => if z =? 0 then d else z
  end.

(** [v === true]: only the boolean [true] is strictly equal to [true]. *)
Definition strict_eq_true (v : JsValue) : bool :=
  match v with
  | JBool true => true
  | _ => false
  end.

(** ** The host (Blockly core)

    What the class reads from its base classes and from
    [getConstants()], and the two text measurement primitives of
    [Blockly.utils.dom].  Lengths are exact rationals. *)
Record Host := {
  FIELD_TEXT_HEIGHT : Q;
  FIELD_BORDER_RECT_X_PADDING : Q;
  FIELD_BORDER_RECT_Y_PADDING : Q;
  (** width of an attached text node, by its text content *)
  getTextWidth : jsstring -> Q;
  (** width of the detached text node at the field's font size, weight
      and family, by its text content *)
  getFastTextWidth : jsstring -> Q;
}.

Record Size := { width : Q; height : Q }.

(** The fields of the instance that the base classes own. *)
Record Inherited := {
  value_ : jsstring;
  isBeingEdited_ : bool;
  maxDisplayLength : Z;
  (** [sourceBlock_.RTL] *)
  RTL : bool;
  (** whether [borderRect_] is set *)
  borderRect_ : bool;
  (** the text content of the child nodes of [textGroup_] *)
  textGroup_ : list jsstring;
  size_ : Size;
}.

Definition with_isBeingEdited_ (e : bool) (b : Inherited) : Inherited :=
  {| value_ := value_ b; isBeingEdited_ := e;
     maxDisplayLength := maxDisplayLength b; RTL := RTL b;
     borderRect_ := borderRect_ b; textGroup_ := textGroup_ b;
     size_ := size_ b |}.

Definition with_borderRect_ (r : bool) (b : Inherited) : Inherited :=
  {| value_ := value_ b; isBeingEdited_ := isBeingEdited_ b;
     maxDisplayLength := maxDisplayLength b; RTL := RTL b;
     borderRect_ := r; textGroup_ := textGroup_ b;
     size_ := size_ b |}.

Definition with_textGroup_ (nodes : list jsstring) (b : Inherited) : Inherited :=
  {| value_ := value_ b; isBeingEdited_ := isBeingEdited_ b;
     maxDisplayLength := maxDisplayLength b; RTL := RTL b;
     borderRect_ := borderRect_ b; textGroup_ := nodes;
     size_ := size_ b |}.

Definition with_size_ (s : Size) (b : Inherited) : Inherited :=
  {| value_ := value_ b; isBeingEdited_ := isBeingEdited_ b;
     maxDisplayLength := maxDisplayLength b; RTL := RTL b;
     borderRect_ := borderRect_ b; textGroup_ := textGroup_ b;
     size_ := s |}.

(** The instance as the constructors of the base classes leave it for
    the value [value]: not edited, not yet rendered, at most 50 code
    units displayed. *)
Definition super_constructor (value : jsstring) : Inherited :=
  {| value_ := value; isBeingEdited_ := false; maxDisplayLength := 50;
     RTL := false; borderRect_ := false; textGroup_ := [];
     size_ := {| width := 0; height := 0 |} |}.

(** The running maximum that both loops of [updateSize_] keep in
    [totalWidth]: a width replaces it when it is greater. *)
Definition max_width (totalWidth : Q) (ws : list Q) : Q :=
  foldl (fun acc w => if Qlt_le_dec acc w then w else acc) totalWidth ws.

(** Lines 200-205: an editor line longer than [maxDisplayLength] is
    cut to it. *)
Definition display_line (maxDisplayLength : Z) (line : jsstring) : jsstring :=
  if maxDisplayLength <? Z.of_nat (length line)
  then substring0 line maxDisplayLength else line.

(** The handler of the base classes that a key event is passed on to:
    [Blockly.FieldTextInput]'s ends the edit session on Enter,
    [Blockly.FieldMultilineInput]'s leaves Enter to the text area,
    which inserts a line break. *)
Inductive KeyHandler :=
| FieldTextInput_onHtmlInputKeyDown_
| FieldMultilineInput_onHtmlInputKeyDown_.

(** [Blockly.utils.KeyCodes.ENTER] *)
Definition ENTER : Z := 13.

Definition DEFAULT_LINE_CHARS : Z := 40.


(** A host with a fixed-pitch font, 8 units a code unit, for examples. *)
Definition example_host : Host :=
  {| FIELD_TEXT_HEIGHT := 16;
     FIELD_BORDER_RECT_X_PADDING := 5;
     FIELD_BORDER_RECT_Y_PADDING := 3;
     getTextWidth := fun s => inject_Z (8 * Z.of_nat (length s));
     getFastTextWidth := fun s => inject_Z (8 * Z.of_nat (length s)) |}.

(** A text node of the text group with the attributes that [render_]
    gives it. *)
Record TextNode := {
  attr_x : Q;
  attr_y : Q;
  attr_dy : Q;
  textContent : jsstring;
}.

(** What [widgetCreate_] reads besides the field and [getConstants()]:
    the scale of the workspace, the font size, the border radius of
    [Blockly.FieldTextInput], the user agent test and the base method
    [getEditorText_]. *)
Record Editor := {
  scale : Q;
  FIELD_TEXT_FONTSIZE : Q;
  BORDERRADIUS : Q;
  GECKO : bool;
  getEditorText_ : jsstring -> jsstring;
}.

(** How [resizeEditor_] is called: at once, or through
    [setTimeout(..., 0)]. *)
Inductive Resize :=
| ResizeNow
| ResizeDeferred.

(** The text area that [widgetCreate_] returns: its font size in pt,
    its border radius, paddings and line height in px, and its
    values. *)
Record HtmlTextArea := {
  style_fontSize : Q;
  style_borderRadius : Q;
  style_paddingTop : Q;
  style_paddingRight : Q;
  style_paddingBottom : Q;
  style_paddingLeft : Q;
  style_lineHeight : Q;
  value : jsstring;
  defaultValue : jsstring;
  untypedDefaultValue_ : jsstring;
  resize : Resize;
}.

(** The rows [rows] hold the tokens [ws] whole: the tokens are cut, in
    their order, into non-empty groups, and every row is one group, its
    tokens joined by single spaces. *)
Definition whole_tokens (ws rows : list jsstring) : Prop :=
  exists groups : list (list jsstring),
    concat groups = ws /\ Forall (fun g => g <> []) groups /\
    rows = join [SP] <$> groups.

(** ** splitOnRows (src/index.js, lines 53-71) *)

Module FieldTextBox.

(** Body of the inner loop for one word [w[i]] (lines 63-67).  The
    array [rows] is never empty here, [w[0]] was pushed before the loop;
    on an empty array [rows[rows.length - 1]] would be [undefined]. *)
Definition add_word (chars : Z) (rows : list jsstring) (wi : jsstring)
  : list jsstring :=
  let cur := default [] (last rows) in
  if Z.of_nat (length wi) + Z.of_nat (length cur) + 1 <? chars
  then <[pred (length rows) := cur ++ SP :: wi]> rows
  else rows ++ [wi].

(** Body of the outer loop for one paragraph [p] (lines 59-68). *)
Definition add_paragraph (chars : Z) (rows : list jsstring) (p : jsstring)
  : list jsstring :=
  match split space p with
  | [] => rows
  | w0 :: ws => foldl (add_word chars) (rows ++ [w0]) ws
  end.

Definition splitOnRows (text : jsstring) (chars : Z) : list jsstring :=
  foldl (add_paragraph chars) [] (split nl text).

(** The rows of one paragraph. *)
Definition wrap (chars : Z) (p : jsstring) : list jsstring :=
  add_paragraph chars [] p.

(** The rows the inner loop can build: a token, or such a row with one
    more token appended where the test of line 63 allows it. *)
Inductive greedy_row (chars : Z) : jsstring -> Prop :=
| greedy_token (w : jsstring) :
    free space w -> greedy_row chars w
| greedy_append (cur w : jsstring) :
    greedy_row chars cur -> free space w ->
    Z.of_nat (length w) + Z.of_nat (length cur) + 1 < chars ->
    greedy_row chars (cur ++ SP :: w).

(** The rows [rows'] are ahead of the rows [rows]: they are fewer, or
    as many with a last row that is not longer. *)
Definition ahead (rows' rows : list jsstring) : Prop :=
  exists (init init' : list jsstring) (cur cur' : jsstring),
    rows = init ++ [cur] /\ rows' = init' ++ [cur'] /\
    ((length init' < length init)%nat \/
     (length init' = length init /\ (length cur' <= length cur)%nat)).

(** ** The instance *)

Record t := {
  base : Inherited;
  maxLineChars_ : Z;
  closeOnEnter_ : bool;
}.

(** The constructor (lines 27-33).  [super_] is the instance as the
    base constructor leaves it; [options] is [None] when the argument
    is [undefined], and a key that the object lacks reads as
    [undefined]. *)
Definition constructor (super_ : Inherited)
    (options : option (gmap string JsValue)) : t :=
  let _options : gmap string JsValue := default ∅ options in
  let maxLineChars :=
    Math_abs (parseInt10 (default JUndefined (_options !! "maxLineChars"%string))) in
  {| base := super_;
     maxLineChars_ := or_number maxLineChars DEFAULT_LINE_CHARS;
     closeOnEnter_ :=
       strict_eq_true (default JUndefined (_options !! "closeOnEnter"%string)) |}.

Definition getMaxLineChars (this : t) : Z := maxLineChars_ this.

(** An assignment to a field that the base classes own. *)
Definition set_base (f : Inherited -> Inherited) (this : t) : t :=
  {| base := f (base this);
     maxLineChars_ := maxLineChars_ this;
     closeOnEnter_ := closeOnEnter_ this |}.

(** [getDisplayText_] (lines 79-92); [getText()] is the value. *)
Definition getDisplayText_ (this : t) : jsstring :=
  let text := value_ (base this) in
  match text with
  | [] => [NBSP]
  | _ => if RTL (base this) then text ++ [RLM] else text
  end.

(** The first loop of [updateSize_] (lines 170-179), from node [i] on. *)
Fixpoint measure_nodes (h : Host) (nodes : list jsstring) (i : nat)
    (totalWidth totalHeight : Q) : Q * Q :=
  match nodes with
  | [] => (totalWidth, totalHeight)
  | tspan :: nodes' =>
      let textWidth := getTextWidth h tspan in
      let totalWidth :=
        if Qlt_le_dec totalWidth textWidth then textWidth else totalWidth in
      let totalHeight :=
        (totalHeight +
         (FIELD_TEXT_HEIGHT h +
          (if (0 <? i)%nat then FIELD_BORDER_RECT_Y_PADDING h else 0)))%Q in
      measure_nodes h nodes' (S i) totalWidth totalHeight
  end.

(** The loop over [actualEditorLines] (lines 199-216). *)
Fixpoint measure_editor_lines (h : Host) (maxDisplayLength : Z)
    (actualEditorLines : list jsstring) (totalWidth : Q) : Q :=
  match actualEditorLines with
  | [] => totalWidth
  | line :: lines' =>
      let line := display_line maxDisplayLength line in
      let lineWidth := getFastTextWidth h line in
      let totalWidth :=
        if Qlt_le_dec totalWidth lineWidth then lineWidth else totalWidth in
      measure_editor_lines h maxDisplayLength lines' totalWidth
  end.

(** [updateSize_] (lines 166-227): the size it stores in [size_].
    The same width and height are also set as attributes of the border
    rectangle, when there is one, and [positionBorderRect_] is called;
    these writes to the DOM are not modelled. *)
Definition updateSize_ (h : Host) (this : t) : t :=
  let nodes := textGroup_ (base this) in
  let '(totalWidth, totalHeight) := measure_nodes h nodes 0 0%Q 0%Q in
  let totalWidth :=
    if isBeingEdited_ (base this) then
      let actualEditorLines :=
        splitOnRows (value_ (base this)) (maxLineChars_ this) in
      measure_editor_lines h (maxDisplayLength (base this))
        actualEditorLines totalWidth
    else totalWidth in
  let '(totalWidth, totalHeight) :=
    if borderRect_ (base this) then
      ((totalWidth + FIELD_BORDER_RECT_X_PADDING h * 2)%Q,
       (totalHeight + FIELD_BORDER_RECT_Y_PADDING h * 2)%Q)
    else (totalWidth, totalHeight) in
  set_base (with_size_ {| width := totalWidth; height := totalHeight |}) this.

(** [render_] (lines 98-160): the children of [textGroup_] are replaced
    by one text node per row of the display text, then the size is
    updated.  While the field is edited [render_] also resizes the
    editor and sets its class and ARIA state by [isTextValid_]; these
    writes to the DOM are not modelled. *)
Definition render_ (h : Host) (this : t) : t :=
  let text := getDisplayText_ this in
  let lines := splitOnRows text (maxLineChars_ this) in
  updateSize_ h (set_base (with_textGroup_ (replace_spaces NBSP <$> lines)) this).

(** The loop of [render_] over [lines] (lines 108-130), from the
    offset [y] on: the nodes it creates.  [FIELD_TEXT_BASELINE] is the
    constant of that name. *)
Fixpoint render_lines (h : Host) (FIELD_TEXT_BASELINE : Q)
    (lines : list jsstring) (y : Q) : list TextNode :=
  match lines with
  | [] => []
  | line_i :: lines' =>
      let lineHeight :=
        (FIELD_TEXT_HEIGHT h + FIELD_BORDER_RECT_Y_PADDING h)%Q in
      {| attr_x := FIELD_BORDER_RECT_X_PADDING h;
         attr_y := (y + FIELD_BORDER_RECT_Y_PADDING h)%Q;
         attr_dy := FIELD_TEXT_BASELINE;
         textContent := replace_spaces NBSP line_i |}
      :: render_lines h FIELD_TEXT_BASELINE lines' (y + lineHeight)%Q
  end.

(** The nodes of the text group after [render_] (lines 106-130). *)
Definition render_nodes (h : Host) (FIELD_TEXT_BASELINE : Q) (this : t)
  : list TextNode :=
  let text := getDisplayText_ this in
  let lines := splitOnRows text (maxLineChars_ this) in
  render_lines h FIELD_TEXT_BASELINE lines 0.

(** [widgetCreate_] (lines 234-278): the style and the values of the
    text area, and how the editor is resized.  The class name, the
    spell check attribute and the event bindings are not modelled. *)
Definition widgetCreate_ (h : Host) (e : Editor) (this : t) : HtmlTextArea :=
  let fontSize := (FIELD_TEXT_FONTSIZE e * scale e)%Q in
  let borderRadius := (BORDERRADIUS e * scale e)%Q in
  let paddingX := (FIELD_BORDER_RECT_X_PADDING h * scale e)%Q in
  let paddingY := (FIELD_BORDER_RECT_Y_PADDING h * scale e / 2)%Q in
  let lineHeight :=
    (FIELD_TEXT_HEIGHT h + FIELD_BORDER_RECT_Y_PADDING h)%Q in
  {| style_fontSize := fontSize;
     style_borderRadius := borderRadius;
     style_paddingTop := paddingY;
     style_paddingRight := paddingX;
     style_paddingBottom := paddingY;
     style_paddingLeft := paddingX;
     style_lineHeight := (lineHeight * scale e)%Q;
     value := getEditorText_ e (value_ (base this));
     defaultValue := getEditorText_ e (value_ (base this));
     untypedDefaultValue_ := value_ (base this);
     resize := if GECKO e then ResizeDeferred else ResizeNow |}.

(** [onHtmlInputKeyDown_] (lines 305-311): the base handler the event
    with key code [keyCode] is passed on to. *)
Definition onHtmlInputKeyDown_ (this : t) (keyCode : Z) : KeyHandler :=
  if (keyCode =? ENTER) && closeOnEnter_ this
  then FieldTextInput_onHtmlInputKeyDown_
  else FieldMultilineInput_onHtmlInputKeyDown_.

End FieldTextBox.

Import FieldTextBox.

(** * Properties *)

(** ** Splitting and joining *)

Section split_facts.
Context (sep : code_unit -> bool).

Lemma split_nonempty s : split sep s <> [].
Proof.
  destruct s as [|c s]; simpl; [discriminate|].
  destruct (sep c); [discriminate|].
  destruct (split sep s); discriminate.
Qed.

Lemma split_free s : free sep s -> split sep s = [s].
Proof.
  induction 1 as [|c s Hc _ IH]; [done|].
  simpl. by rewrite Hc, IH.
Qed.

Lemma split_pieces_free s : Forall (free sep) (split sep s).
Proof.
  induction s as [|c s IH]; simpl.
  - repeat constructor.
  - destruct (sep c) eqn:Hc.
    + constructor; [constructor | done].
    + destruct (split sep s) as [|piece pieces]; [repeat constructor; done|].
      inversion IH; subst. constructor; [by constructor | done].
Qed.

(** Splitting at a separator in the middle splits both sides. *)
Lemma split_app_sep s c t :
  sep c = true -> split sep (s ++ c :: t) = split sep s ++ split sep t.
Proof.
  intros Hc. induction s as [|a s IH]; simpl.
  - by rewrite Hc.
  - destruct (sep a); [by rewrite IH|].
    rewrite IH. destruct (split sep s) as [|piece pieces] eqn:E; [|done].
    by apply split_nonempty in E.
Qed.

(** A separator-free suffix extends the last piece. *)
Lemma split_app_free s t :
  free sep t ->
  exists pieces piece,
    split sep s = pieces ++ [piece] /\
    split sep (s ++ t) = pieces ++ [piece ++ t].
Proof.
  intros Ht. induction s as [|a s (pieces & piece & E1 & E2)].
  - exists [], []. split; [done|]. simpl. by apply split_free.
  - simpl. rewrite E1, E2. destruct (sep a).
    + by exists ([] :: pieces), piece.
    + destruct pieces as [|p0 pieces]; simpl.
      * by exists [], (a :: piece).
      * by exists ((a :: p0) :: pieces), piece.
Qed.

Lemma join_split c s :
  (forall x, sep x = true -> x = c) -> join [c] (split sep s) = s.
Proof.
  intros Hsep. induction s as [|a s IH]; [done|].
  simpl. destruct (sep a) eqn:Ha.
  - apply Hsep in Ha as ->.
    destruct (split sep s) as [|piece pieces] eqn:E;
      [by apply split_nonempty in E|].
    simpl in *. by rewrite IH.
  - destruct (split sep s) as [|piece pieces] eqn:E;
      [by apply split_nonempty in E|].
    destruct pieces; simpl in *; by rewrite <- IH.
Qed.

Lemma split_join c xs :
  sep c = true -> xs <> [] -> Forall (free sep) xs ->
  split sep (join [c] xs) = xs.
Proof.
  intros Hc Hne Hfree. induction Hfree as [|x xs Hx Hxs IH]; [done|].
  destruct xs as [|y xs].
  - simpl. by apply split_free.
  - change (join [c] (x :: y :: xs)) with (x ++ c :: join [c] (y :: xs)).
    rewrite split_app_sep by done. rewrite IH by done.
    by rewrite (split_free x).
Qed.
End split_facts.

Example split_ex1 : split space (str "a  b") = [str "a"; str ""; str "b"].
Proof. reflexivity. Qed.

(** ** The rows array *)

Lemma last_snoc_default (init : list jsstring) (cur : jsstring) :
  default [] (last (init ++ [cur])) = cur.
Proof. by rewrite last_snoc. Qed.

Lemma insert_last_snoc (init : list jsstring) (cur x : jsstring) :
  <[pred (length (init ++ [cur])) := x]> (init ++ [cur]) = init ++ [x].
Proof.
  rewrite length_app. simpl.
  replace (pred (length init + 1)) with (length init + 0)%nat by lia.
  by rewrite insert_app_r.
Qed.

(** One step of the inner loop on a non-empty array: only the last row
    is read, and either it grows or a row is added after it. *)
Lemma add_word_snoc chars (init : list jsstring) (cur wi : jsstring) :
  add_word chars (init ++ [cur]) wi =
    if Z.of_nat (length wi) + Z.of_nat (length cur) + 1 <? chars
    then init ++ [cur ++ SP :: wi]
    else init ++ [cur; wi].
Proof.
  unfold add_word. rewrite last_snoc_default, insert_last_snoc.
  destruct (_ <? _); [done|]. by rewrite <- app_assoc.
Qed.

Lemma add_word_app chars (pre rows : list jsstring) (wi : jsstring) :
  rows <> [] ->
  add_word chars (pre ++ rows) wi = pre ++ add_word chars rows wi.
Proof.
  intros Hne. destruct (exists_last Hne) as (init & cur & ->).
  rewrite app_assoc, !add_word_snoc.
  destruct (_ <? _); by rewrite <- app_assoc.
Qed.

Lemma add_word_nonempty chars (rows : list jsstring) (wi : jsstring) :
  rows <> [] -> add_word chars rows wi <> [].
Proof.
  intros Hne. destruct (exists_last Hne) as (init & cur & ->).
  rewrite add_word_snoc. destruct (_ <? _); by destruct init.
Qed.

Lemma add_words_nonempty chars (ws rows : list jsstring) :
  rows <> [] -> foldl (add_word chars) rows ws <> [].
Proof.
  revert rows. induction ws as [|w ws IH]; intros rows Hne; [done|].
  simpl. by apply IH, add_word_nonempty.
Qed.

Lemma add_words_app chars (ws pre rows : list jsstring) :
  rows <> [] ->
  foldl (add_word chars) (pre ++ rows) ws = pre ++ foldl (add_word chars) rows ws.
Proof.
  revert rows. induction ws as [|w ws IH]; intros rows Hne; [done|].
  simpl. rewrite add_word_app by done. by apply IH, add_word_nonempty.
Qed.

(** The rows of a paragraph do not depend on the rows before it. *)
Lemma add_paragraph_app chars (rows : list jsstring) (p : jsstring) :
  add_paragraph chars rows p = rows ++ wrap chars p.
Proof.
  unfold wrap, add_paragraph.
  destruct (split space p) as [|w0 ws]; [by rewrite app_nil_r|].
  by rewrite add_words_app.
Qed.

Lemma wrap_nonempty chars (p : jsstring) : wrap chars p <> [].
Proof.
  unfold wrap, add_paragraph.
  destruct (split space p) as [|w0 ws] eqn:E; [by apply split_nonempty in E|].
  by apply add_words_nonempty.
Qed.

Lemma add_paragraphs_concat chars (ps : list jsstring) (rows : list jsstring) :
  foldl (add_paragraph chars) rows ps = rows ++ concat (wrap chars <$> ps).
Proof.
  revert rows. induction ps as [|p ps IH]; intros rows; simpl.
  - by rewrite app_nil_r.
  - by rewrite IH, add_paragraph_app, <- app_assoc.
Qed.

(** [splitOnRows] wraps the paragraphs one by one. *)
Lemma splitOnRows_concat (text : jsstring) chars :
  splitOnRows text chars = concat (wrap chars <$> split nl text).
Proof. unfold splitOnRows. by rewrite add_paragraphs_concat. Qed.

Lemma splitOnRows_nonempty (text : jsstring) chars :
  splitOnRows text chars <> [].
Proof.
  rewrite splitOnRows_concat.
  destruct (split nl text) as [|p ps] eqn:E; [by apply split_nonempty in E|].
  simpl. pose proof (wrap_nonempty chars p). by destruct (wrap chars p).
Qed.

(** A line break ends the rows of the text before it. *)
Lemma splitOnRows_line_break (text rest : jsstring) chars :
  splitOnRows (text ++ LF :: rest) chars =
    splitOnRows text chars ++ splitOnRows rest chars.
Proof.
  rewrite !splitOnRows_concat, (split_app_sep nl) by done.
  by rewrite fmap_app, concat_app.
Qed.

Lemma space_LF : space LF = true.
Proof. reflexivity. Qed.

Lemma free_space_nl (s : jsstring) : free space s -> free nl s.
Proof.
  unfold free. apply List.Forall_impl. intros c Hc. unfold nl.
  destruct (N.eqb_spec c LF) as [->|]; [by rewrite space_LF in Hc | done].
Qed.

(** A word after the end of the text is one more step of the inner loop. *)
Lemma splitOnRows_snoc_word (text : jsstring) (c : code_unit) (tok : jsstring) chars :
  space c = true -> c <> LF -> free space tok ->
  splitOnRows (text ++ c :: tok) chars = add_word chars (splitOnRows text chars) tok.
Proof.
  intros Hc Hnl Htok.
  assert (free nl (c :: tok)) as Hfree.
  { constructor; [by apply N.eqb_neq | by apply free_space_nl]. }
  destruct (split_app_free nl text (c :: tok) Hfree) as (ps & p & E1 & E2).
  rewrite !splitOnRows_concat, E1, E2, !fmap_app, !concat_app. simpl.
  rewrite !app_nil_r.
  rewrite add_word_app by apply wrap_nonempty. f_equal.
  unfold wrap, add_paragraph.
  rewrite split_app_sep by done. rewrite (split_free space tok) by done.
  destruct (split space p) as [|w0 ws] eqn:E; [by apply split_nonempty in E|].
  simpl. by rewrite foldl_app.
Qed.

(** ** Rows are groups of whole tokens *)

Lemma join_snoc (sep : jsstring) (xs : list jsstring) (x : jsstring) :
  xs <> [] -> join sep (xs ++ [x]) = join sep xs ++ sep ++ x.
Proof.
  induction xs as [|y xs IH]; [done|]. intros _.
  destruct xs as [|z xs]; [done|].
  change (join sep ((y :: z :: xs) ++ [x]))
    with (y ++ sep ++ join sep ((z :: xs) ++ [x])).
  rewrite IH by done. simpl. by rewrite <- !app_assoc.
Qed.

Lemma whole_tokens_step chars (ws rows : list jsstring) (w : jsstring) :
  ws <> [] -> whole_tokens ws rows ->
  whole_tokens (ws ++ [w]) (add_word chars rows w).
Proof.
  intros Hws (groups & Hcat & Hne & ->).
  destruct groups as [|g0 groups0 _] using rev_ind;
    [by destruct Hws|].
  apply Forall_app in Hne as [Hne Hg]. rewrite Forall_singleton in Hg.
  rewrite fmap_app. simpl. rewrite add_word_snoc.
  destruct (_ <? _).
  - exists (groups0 ++ [g0 ++ [w]]). split_and!.
    + rewrite <- Hcat, !concat_app. simpl. by rewrite !app_nil_r, app_assoc.
    + apply Forall_app. split; [done|]. apply Forall_singleton. by destruct g0.
    + rewrite fmap_app. simpl. by rewrite join_snoc by done.
  - exists ((groups0 ++ [g0]) ++ [[w]]). split_and!.
    + rewrite concat_app, Hcat. done.
    + apply Forall_app. split; [|by apply Forall_singleton].
      apply Forall_app. split; [done | by apply Forall_singleton].
    + rewrite !fmap_app. simpl. by rewrite <- app_assoc.
Qed.

Lemma whole_tokens_words chars (w0 : jsstring) (ws : list jsstring) :
  whole_tokens (w0 :: ws) (foldl (add_word chars) [w0] ws).
Proof.
  induction ws as [|w ws IH] using rev_ind.
  - exists [[w0]]. split_and!; [done | by apply Forall_singleton | done].
  - rewrite foldl_app. simpl.
    change (w0 :: ws ++ [w]) with ((w0 :: ws) ++ [w]).
    by apply whole_tokens_step.
Qed.

Lemma wrap_whole_tokens chars (p : jsstring) :
  whole_tokens (split space p) (wrap chars p).
Proof.
  unfold wrap, add_paragraph.
  destruct (split space p) as [|w0 ws] eqn:E; [by apply split_nonempty in E|].
  apply whole_tokens_words.
Qed.

(** The first row of a paragraph begins with its first token. *)
Lemma wrap_first_token chars (p : jsstring) :
  exists (w0 : jsstring) (ws g rows' : list jsstring),
    split space p = w0 :: ws /\ wrap chars p = join [SP] (w0 :: g) :: rows'.
Proof.
  destruct (wrap_whole_tokens chars p) as (groups & Hcat & Hne & Hrows).
  destruct (split space p) as [|w0 ws] eqn:E; [by apply split_nonempty in E|].
  destruct groups as [|g0 groups]; [done|].
  inversion Hne as [|? ? Hg0 _]; subst.
  destruct g0 as [|w g]; [done|]. simpl in Hcat. inversion Hcat; subst.
  exists w0, (g ++ concat groups), g, (join [SP] <$> groups). by rewrite Hrows.
Qed.

(** C6: no token is broken across rows.  The rows of [splitOnRows] are
    the rows of its paragraphs, one paragraph after the other; the
    tokens of a paragraph are cut, in order, into non-empty groups and
    each row is one whole group joined by single spaces; the first row
    of a paragraph begins with the paragraph's whole first token,
    whatever its length and whatever the budget. *)
Theorem splitOnRows_whole_tokens (text : jsstring) (chars : Z) :
  exists rowss : list (list jsstring),
    splitOnRows text chars = concat rowss /\
    Forall2 (fun p rows =>
               whole_tokens (split space p) rows /\
               exists (w0 : jsstring) (ws g rows' : list jsstring),
                 split space p = w0 :: ws /\
                 rows = join [SP] (w0 :: g) :: rows')
            (split nl text) rowss.
Proof.
  exists (wrap chars <$> split nl text). split; [apply splitOnRows_concat|].
  apply Forall2_fmap_r, Forall_Forall2_diag, Forall_forall.
  intros p _. split; [apply wrap_whole_tokens | apply wrap_first_token].
Qed.

(** ** The append rule *)

(** C4: a further token is appended to the last row exactly when
    tokenLength + currentRowLength + 1 < budget, and starts a new row
    otherwise; so "aa bb" gives the rows "aa", "bb" at budget 5 and the
    one row "aa bb" at budget 6. *)
Theorem splitOnRows_append_rule (text : jsstring) (c : code_unit)
    (tok : jsstring) (chars : Z) :
  space c = true -> c <> LF -> free space tok ->
  (exists (init : list jsstring) (cur : jsstring),
     splitOnRows text chars = init ++ [cur] /\
     (Z.of_nat (length tok) + Z.of_nat (length cur) + 1 < chars ->
      splitOnRows (text ++ c :: tok) chars = init ++ [cur ++ SP :: tok]) /\
     (~ Z.of_nat (length tok) + Z.of_nat (length cur) + 1 < chars ->
      splitOnRows (text ++ c :: tok) chars = init ++ [cur; tok])) /\
  splitOnRows (str "aa bb") 5 = [str "aa"; str "bb"] /\
  splitOnRows (str "aa bb") 6 = [str "aa bb"].
Proof.
  intros Hc Hnl Htok. split; [|by split].
  destruct (exists_last (splitOnRows_nonempty text chars)) as (init & cur & E).
  exists init, cur. split; [done|].
  rewrite splitOnRows_snoc_word, E, add_word_snoc by done.
  split; intros H.
  - apply Z.ltb_lt in H. by rewrite H.
  - apply Z.ltb_nlt in H. by rewrite H.
Qed.

Lemma splitOnRows_append_rule_witness :
  space SP = true /\ SP <> LF /\ free space (str "bb") /\
  (exists (init : list jsstring) (cur : jsstring),
     splitOnRows (str "aa") 5 = init ++ [cur] /\
     (Z.of_nat (length (str "bb")) + Z.of_nat (length cur) + 1 < 5 ->
      splitOnRows (str "aa" ++ SP :: str "bb") 5 = init ++ [cur ++ SP :: str "bb"]) /\
     (~ Z.of_nat (length (str "bb")) + Z.of_nat (length cur) + 1 < 5 ->
      splitOnRows (str "aa" ++ SP :: str "bb") 5 = init ++ [cur; str "bb"])).
Proof.
  assert (space SP = true) as H1 by reflexivity.
  assert (SP <> LF) as H2 by discriminate.
  assert (free space (str "bb")) as H3 by (repeat constructor).
  split_and!; [done..|].
  exact (proj1 (splitOnRows_append_rule (str "aa") SP (str "bb") 5 H1 H2 H3)).
Defined.

(** ** Line breaks and the empty text *)

(** C7: explicit line breaks and empty paragraphs are kept:
    "a\n\nb" gives the rows "a", "", "b" at budget 40, and the empty
    text gives the single row "" at every budget. *)
Theorem splitOnRows_line_breaks :
  splitOnRows (str "a" ++ LF :: LF :: str "b") 40 = [str "a"; str ""; str "b"] /\
  forall N : Z, splitOnRows (str "") N = [str ""].
Proof. split; [reflexivity | intros N; reflexivity]. Qed.

(** ** Row lengths *)

Lemma add_words_bound chars (w0 : jsstring) (ws : list jsstring) (r : jsstring) :
  r ∈ foldl (add_word chars) [w0] ws ->
  Z.of_nat (length r) < chars \/ r ∈ w0 :: ws.
Proof.
  revert r. induction ws as [|w ws IH] using rev_ind; intros r Hr.
  - by right.
  - rewrite foldl_app in Hr. simpl in Hr.
    assert (forall r', r' ∈ foldl (add_word chars) [w0] ws ->
              Z.of_nat (length r') < chars \/ r' ∈ w0 :: ws ++ [w]) as IH'.
    { intros r' Hr'. destruct (IH r' Hr') as [?|Hin]; [by left|right].
      change (r' ∈ (w0 :: ws) ++ [w]). apply elem_of_app. by left. }
    assert (foldl (add_word chars) [w0] ws <> []) as Hne
      by by apply add_words_nonempty.
    destruct (exists_last Hne) as (init & cur & E). rewrite E in *.
    rewrite add_word_snoc in Hr.
    destruct (Z.ltb_spec (Z.of_nat (length w) + Z.of_nat (length cur) + 1) chars)
      as [Hlt|Hge].
    + apply elem_of_app in Hr as [Hr|Hr].
      * apply IH', elem_of_app. by left.
      * apply list_elem_of_singleton in Hr as ->. left.
        rewrite length_app. simpl. lia.
    + replace (init ++ [cur; w]) with ((init ++ [cur]) ++ [w]) in Hr
        by by rewrite <- app_assoc.
      apply elem_of_app in Hr as [Hr|Hr]; [by apply IH'|].
      apply list_elem_of_singleton in Hr as ->. right.
      change (w ∈ (w0 :: ws) ++ [w]). apply elem_of_app. right. constructor.
Qed.

(** C3, as the code has it: a row is at most budget - 1 code units
    long, or it is a single whole token of the text (a token is never
    broken, so such a row is as long as its token). *)
Theorem splitOnRows_row_length (text : jsstring) (chars : Z) (r : jsstring) :
  r ∈ splitOnRows text chars ->
  Z.of_nat (length r) <= chars - 1 \/
  exists p : jsstring, p ∈ split nl text /\ r ∈ split space p.
Proof.
  rewrite splitOnRows_concat. intros Hr.
  apply list_elem_of_In, in_concat in Hr as (rows & Hrows & Hr).
  apply list_elem_of_In in Hrows, Hr.
  apply list_elem_of_fmap in Hrows as (p & -> & Hp).
  unfold wrap, add_paragraph in Hr.
  destruct (split space p) as [|w0 ws] eqn:E; [by apply split_nonempty in E|].
  simpl in Hr. apply add_words_bound in Hr as [Hlt|Hin]; [left; lia|].
  right. exists p. by rewrite E.
Qed.

Lemma splitOnRows_row_length_witness :
  str "aa bb" ∈ splitOnRows (str "aa bb") 6 /\
  (Z.of_nat (length (str "aa bb")) <= 6 - 1 \/
   exists p : jsstring, p ∈ split nl (str "aa bb") /\ str "aa bb" ∈ split space p).
Proof.
  assert (str "aa bb" ∈ splitOnRows (str "aa bb") 6) as H by constructor.
  split; [done|].
  exact (splitOnRows_row_length (str "aa bb") 6 (str "aa bb") H).
Defined.

(** Not every row is shorter than the budget (C3): the one token
    "abcdef" is a row of 6 code units at budget 3. *)
Lemma splitOnRows_row_length_counterexample :
  ~ (forall r : jsstring, r ∈ splitOnRows (str "abcdef") 3 ->
       Z.of_nat (length r) <= 3 - 1).
Proof.
  intros H. specialize (H (str "abcdef")).
  assert (str "abcdef" ∈ splitOnRows (str "abcdef") 3) as Hin by constructor.
  apply H in Hin. simpl in Hin. lia.
Qed.

(** ** A paragraph that fits in one row *)

Lemma join_split_space (p : jsstring) :
  join [SP] (split space p) = replace_spaces SP p.
Proof.
  unfold replace_spaces. induction p as [|c p IH]; [done|].
  rewrite fmap_cons, <- IH. simpl split.
  destruct (split space p) as [|piece pieces] eqn:E;
    [by apply split_nonempty in E|].
  destruct (space c); [done|]. by destruct pieces.
Qed.

Lemma add_word_length chars (rows : list jsstring) (w : jsstring) :
  (length rows <= length (add_word chars rows w))%nat.
Proof.
  unfold add_word. destruct (_ <? _).
  - by rewrite length_insert.
  - rewrite length_app. lia.
Qed.

Lemma add_words_single chars (w0 : jsstring) (ws : list jsstring) :
  length (foldl (add_word chars) [w0] ws) = 1%nat ->
  foldl (add_word chars) [w0] ws = [join [SP] (w0 :: ws)].
Proof.
  induction ws as [|w ws IH] using rev_ind; [done|].
  rewrite foldl_app. cbn [foldl]. intros Hlen.
  pose proof (add_word_length chars (foldl (add_word chars) [w0] ws) w) as Hle.
  pose proof (add_words_nonempty chars ws [w0] ltac:(done)) as Hne.
  destruct (foldl (add_word chars) [w0] ws) as [|r [|r' rows]] eqn:E;
    [done | | simpl in Hle; lia].
  assert (r = join [SP] (w0 :: ws)) as -> by (specialize (IH eq_refl); congruence).
  clear IH Hle Hne.
  pose proof (add_word_snoc chars [] (join [SP] (w0 :: ws)) w) as Hstep.
  cbn [app] in Hstep. rewrite Hstep in *. destruct (_ <? _); [|done].
  f_equal. change (w0 :: ws ++ [w]) with ((w0 :: ws) ++ [w]).
  by rewrite join_snoc by done.
Qed.

(** A paragraph shorter than the budget comes out as one row. *)
Lemma add_words_fit chars (w0 : jsstring) (ws : list jsstring) :
  Z.of_nat (length (join [SP] (w0 :: ws))) < chars ->
  foldl (add_word chars) [w0] ws = [join [SP] (w0 :: ws)].
Proof.
  induction ws as [|w ws IH] using rev_ind; [done|].
  change (w0 :: ws ++ [w]) with ((w0 :: ws) ++ [w]).
  rewrite join_snoc, !length_app by done. cbn [length]. intros Hlen.
  rewrite foldl_app, IH by lia. cbn [foldl].
  pose proof (add_word_snoc chars [] (join [SP] (w0 :: ws)) w) as Hstep.
  cbn [app] in Hstep. rewrite Hstep.
  destruct (Z.ltb_spec (Z.of_nat (length w) +
                        Z.of_nat (length (join [SP] (w0 :: ws))) + 1) chars);
    [done | lia].
Qed.

Lemma splitOnRows_fits (p : jsstring) chars :
  free nl p -> Z.of_nat (length p) < chars ->
  splitOnRows p chars = [replace_spaces SP p].
Proof.
  intros Hp Hlen. rewrite splitOnRows_concat, (split_free nl p) by done.
  simpl. rewrite app_nil_r. unfold wrap, add_paragraph.
  rewrite <- join_split_space.
  assert (length (join [SP] (split space p)) = length p) as Hjoin.
  { rewrite join_split_space. unfold replace_spaces. by rewrite length_fmap. }
  destruct (split space p) as [|w0 ws] eqn:E; [by apply split_nonempty in E|].
  apply add_words_fit. lia.
Qed.

(** C2, as the code has it: every single white space code unit is a
    delimiter (a run of k of them gives k - 1 empty tokens), and the
    tokens of a row are joined by single spaces; so in a paragraph that
    comes out as one row every white space code unit is replaced by one
    space: a tab becomes a space, two spaces stay two spaces. *)
Theorem splitOnRows_single_row (p : jsstring) (chars : Z) :
  free nl p ->
  length (splitOnRows p chars) = 1%nat ->
  splitOnRows p chars = [join [SP] (split space p)] /\
  join [SP] (split space p) = replace_spaces SP p /\
  length (join [SP] (split space p)) = length p.
Proof.
  intros Hp Hlen. split; [|split].
  - revert Hlen. rewrite splitOnRows_concat, (split_free nl p) by done.
    simpl. rewrite app_nil_r. unfold wrap, add_paragraph.
    destruct (split space p) as [|w0 ws] eqn:E; [by apply split_nonempty in E|].
    apply add_words_single.
  - apply join_split_space.
  - rewrite join_split_space. unfold replace_spaces. by rewrite length_fmap.
Qed.

Lemma splitOnRows_single_row_witness :
  free nl (str "a  b") /\
  length (splitOnRows (str "a  b") 40) = 1%nat /\
  splitOnRows (str "a  b") 40 = [join [SP] (split space (str "a  b"))] /\
  join [SP] (split space (str "a  b")) = replace_spaces SP (str "a  b") /\
  length (join [SP] (split space (str "a  b"))) = length (str "a  b").
Proof.
  assert (free nl (str "a  b")) as H1 by (repeat constructor).
  assert (length (splitOnRows (str "a  b") 40) = 1%nat) as H2 by reflexivity.
  split_and!; [done | done | ..];
    apply (splitOnRows_single_row (str "a  b") 40 H1 H2).
Defined.

(** A run of white space is not one delimiter (C2): the two spaces
    between "a" and "b" are two delimiters around an empty token, and
    the row keeps two spaces. *)
Lemma splitOnRows_single_row_counterexample :
  split space (str "a  b") = [str "a"; str ""; str "b"] /\
  splitOnRows (str "a  b") 40 = [str "a  b"] /\
  splitOnRows (str "a  b") 40 <> [str "a b"].
Proof. split_and!; [reflexivity | reflexivity | discriminate]. Qed.

(** ** Wrapping the rows again *)

Lemma add_words_greedy chars (w0 : jsstring) (ws : list jsstring) :
  free space w0 -> Forall (free space) ws ->
  Forall (greedy_row chars) (foldl (add_word chars) [w0] ws).
Proof.
  intros Hw0. induction ws as [|w ws IH] using rev_ind; intros Hws.
  - apply Forall_singleton. by constructor.
  - apply Forall_app in Hws as [Hws Hw]. rewrite Forall_singleton in Hw.
    specialize (IH Hws). rewrite foldl_app. cbn [foldl].
    pose proof (add_words_nonempty chars ws [w0] ltac:(done)) as Hne.
    destruct (exists_last Hne) as (init & cur & E). rewrite E in *.
    apply Forall_app in IH as [Hinit Hcur]. rewrite Forall_singleton in Hcur.
    rewrite add_word_snoc.
    destruct (Z.ltb_spec (Z.of_nat (length w) + Z.of_nat (length cur) + 1) chars).
    + apply Forall_app. split; [done|].
      apply Forall_singleton. by constructor.
    + apply Forall_app. split; [done|].
      apply Forall_cons. split; [done|].
      apply Forall_singleton. by constructor.
Qed.

Lemma wrap_greedy chars (p : jsstring) : Forall (greedy_row chars) (wrap chars p).
Proof.
  unfold wrap, add_paragraph. pose proof (split_pieces_free space p) as Hfree.
  destruct (split space p) as [|w0 ws]; [constructor|].
  inversion Hfree; subst. by apply add_words_greedy.
Qed.

Lemma splitOnRows_greedy (text : jsstring) chars :
  Forall (greedy_row chars) (splitOnRows text chars).
Proof.
  rewrite splitOnRows_concat. apply Forall_concat, Forall_fmap, Forall_forall.
  intros p _. apply wrap_greedy.
Qed.

Lemma greedy_row_free_nl chars (r : jsstring) : greedy_row chars r -> free nl r.
Proof.
  induction 1 as [w Hw|cur w _ IH Hw _]; [by apply free_space_nl|].
  apply Forall_app. split; [done|].
  constructor; [done | by apply free_space_nl].
Qed.

(** A row that the loop built is wrapped into itself. *)
Lemma greedy_row_wrap chars (r : jsstring) : greedy_row chars r -> wrap chars r = [r].
Proof.
  induction 1 as [w Hw|cur w _ IH Hw Hlt].
  - unfold wrap, add_paragraph. by rewrite split_free.
  - unfold wrap, add_paragraph in *.
    rewrite split_app_sep by done. rewrite (split_free space w) by done.
    destruct (split space cur) as [|w0 ws] eqn:E; [by apply split_nonempty in E|].
    cbn [app] in *. rewrite foldl_app, IH. cbn [foldl].
    pose proof (add_word_snoc chars [] cur w) as Hstep. cbn [app] in Hstep.
    rewrite Hstep. apply Z.ltb_lt in Hlt. by rewrite Hlt.
Qed.

Lemma concat_singletons (rows : list jsstring) (f : jsstring -> list jsstring) :
  Forall (fun r => f r = [r]) rows -> concat (f <$> rows) = rows.
Proof.
  induction 1 as [|r rows Hr _ IH]; [done|].
  rewrite fmap_cons. simpl. by rewrite Hr, IH.
Qed.

(** C8: wrapping is idempotent.  The rows of a text, joined by line
    breaks and wrapped again at the same budget, are the same rows. *)
Theorem splitOnRows_idempotent (text : jsstring) (chars : Z) :
  splitOnRows (join [LF] (splitOnRows text chars)) chars = splitOnRows text chars.
Proof.
  pose proof (splitOnRows_greedy text chars) as Hgreedy.
  rewrite (splitOnRows_concat (join _ _)).
  rewrite (split_join nl LF).
  - apply concat_singletons. revert Hgreedy. apply List.Forall_impl.
    apply greedy_row_wrap.
  - reflexivity.
  - apply splitOnRows_nonempty.
  - revert Hgreedy. apply List.Forall_impl. apply greedy_row_free_nl.
Qed.

(** ** parseInt reads back the digits of an integer *)

Lemma parse_digits_acc (d : Decimal.uint) (acc : positive) :
  parse_digits (uint_units d) (Z.pos acc) = Z.pos (Pos.of_uint_acc d acc).
Proof.
  revert acc. induction d as [|d IH|d IH|d IH|d IH|d IH|d IH|d IH|d IH|d IH|d IH];
    intros acc; [done|..]; cbn [uint_units parse_digits Pos.of_uint_acc];
    simpl (digit _); rewrite <- IH; f_equal; lia.
Qed.

Lemma parse_digits_uint (d : Decimal.uint) :
  parse_digits (uint_units d) 0 = Z.of_N (Pos.of_uint d).
Proof.
  induction d as [|d IH|d IH|d IH|d IH|d IH|d IH|d IH|d IH|d IH|d IH];
    [done | exact IH | ..]; cbn [uint_units parse_digits Pos.of_uint];
    simpl (digit _); apply parse_digits_acc.
Qed.

Lemma digit_range (c : code_unit) :
  is_Some (digit c) ->
  (c = 48 \/ c = 49 \/ c = 50 \/ c = 51 \/ c = 52 \/
   c = 53 \/ c = 54 \/ c = 55 \/ c = 56 \/ c = 57)%N.
Proof.
  unfold digit. intros [d Hd].
  destruct (N.leb_spec 48 c), (N.leb_spec c 57); simpl in Hd; try done. lia.
Qed.

(** A string that begins with a digit, with or without a minus sign. *)
Lemma parseInt10_string_digits (c : code_unit) (s : jsstring) :
  is_Some (digit c) ->
  parseInt10_string (c :: s) = Num (parse_digits (c :: s) 0) /\
  parseInt10_string (45%N :: c :: s) = Num (- parse_digits (c :: s) 0).
Proof.
  intros Hc. apply digit_range in Hc.
  assert (forall z : Z, 1 * z = z /\ -1 * z = - z) as Hmul by lia.
  destruct_or! Hc; subst c; unfold parseInt10_string;
    cbn -[parse_digits Z.mul]; split; f_equal; apply Hmul.
Qed.

Lemma uint_units_head (d : Decimal.uint) :
  d <> Decimal.Nil ->
  exists (c : code_unit) (s : jsstring),
    uint_units d = c :: s /\ is_Some (digit c).
Proof. destruct d; [done|..]; intros _; eexists _, _; by split. Qed.

(** [parseInt] of an integer Number is the integer. *)
Lemma parseInt10_int (z : Z) : parseInt10 (JInt z) = Num z.
Proof.
  unfold parseInt10, ToString, int_to_string.
  rewrite <- (DecimalZ.of_to z) at 2. unfold Z.of_int.
  assert (forall d, Z.to_int z = Decimal.Pos d \/ Z.to_int z = Decimal.Neg d ->
            d <> Decimal.Nil) as Hnil.
  { intros d. destruct z as [|p|p]; simpl; intros [H|H]; inversion H;
      try done; apply Unsigned.to_uint_nonnil. }
  destruct (Z.to_int z) as [d|d];
    (destruct (uint_units_head d) as (c & s & E & Hc); [by eauto|]);
    unfold Z.of_uint; rewrite <- parse_digits_uint, E;
    by apply parseInt10_string_digits.
Qed.

Lemma parseInt10_not_numeric (v : JsValue) :
  numeric (ToString v) = false -> parseInt10 v = NaN.
Proof.
  unfold parseInt10, parseInt10_string, numeric.
  destruct (strip_sign (trim_start (ToString v))) as [|c s]; [done|].
  destruct (digit c); [|done]. intros H. apply bool_decide_eq_false in H.
  by destruct H.
Qed.

Lemma parseInt10_numeric (v : JsValue) :
  numeric (ToString v) = true -> exists z : Z, parseInt10 v = Num z.
Proof.
  unfold parseInt10, parseInt10_string, numeric.
  destruct (strip_sign (trim_start (ToString v))) as [|c s]; [done|].
  destruct (digit c); [by eauto|]. intros H. apply bool_decide_eq_true in H.
  by destruct H.
Qed.

(** ** The constructor *)

Lemma budget_positive (x : Number) : 1 <= or_number (Math_abs x) DEFAULT_LINE_CHARS.
Proof.
  destruct x as [|z]; simpl; [done|].
  destruct (Z.eqb_spec (Z.abs z) 0); [done | lia].
Qed.

(** C1, as the code has it: the stored budget is at least 1 for every
    configured value.  It is the default 40 when the option is absent
    or not numeric ("x"), and when it is the integer 0; an integer z
    other than 0 with |z| < 2^53 is stored as its absolute value, so
    -5 gives the budget 5 and not the default.  A Number is read
    through its string: 1e21, printed as "1e+21", gives the budget
    1. *)
Theorem constructor_maxLineChars (super_ : Inherited)
    (options : option (gmap string JsValue)) (v : JsValue) :
  default JUndefined (default ∅ options !! "maxLineChars"%string) = v ->
  1 <= getMaxLineChars (constructor super_ options) /\
  (numeric (ToString v) = false ->
   getMaxLineChars (constructor super_ options) = DEFAULT_LINE_CHARS) /\
  (forall z : Z, v = JInt z -> Z.abs z < 2 ^ 53 ->
   getMaxLineChars (constructor super_ options) =
     if z =? 0 then DEFAULT_LINE_CHARS else Z.abs z) /\
  (v = JUndefined -> getMaxLineChars (constructor super_ options) = 40) /\
  (v = JString (str "x") -> getMaxLineChars (constructor super_ options) = 40) /\
  (v = JInt (-5) -> getMaxLineChars (constructor super_ options) = 5) /\
  (v = JOther (str "1e+21") -> getMaxLineChars (constructor super_ options) = 1).
Proof.
  intros Hv. unfold getMaxLineChars, constructor. cbn [maxLineChars_].
  rewrite Hv. split_and!.
  - apply budget_positive.
  - intros Hnum. by rewrite parseInt10_not_numeric.
  - intros z -> _. rewrite parseInt10_int. simpl.
    destruct (Z.eqb_spec z 0) as [->|Hz]; [done|].
    destruct (Z.eqb_spec (Z.abs z) 0); [lia | done].
  - by intros ->.
  - by intros ->.
  - by intros ->.
  - by intros ->.
Qed.

Lemma constructor_maxLineChars_witness :
  default JUndefined
    (default ∅ (Some ({[ "maxLineChars"%string := JInt (-5) ]} : gmap string JsValue))
       !! "maxLineChars"%string) = JInt (-5) /\
  1 <= getMaxLineChars
         (constructor (super_constructor (str "Text value"))
            (Some {[ "maxLineChars"%string := JInt (-5) ]})) /\
  getMaxLineChars
    (constructor (super_constructor (str "Text value"))
       (Some {[ "maxLineChars"%string := JInt (-5) ]})) = 5.
Proof.
  assert (default JUndefined
            (default ∅ (Some ({[ "maxLineChars"%string := JInt (-5) ]}
                              : gmap string JsValue))
               !! "maxLineChars"%string) = JInt (-5)) as H by reflexivity.
  pose proof (constructor_maxLineChars (super_constructor (str "Text value"))
                (Some {[ "maxLineChars"%string := JInt (-5) ]}) (JInt (-5)) H)
    as (H1 & _ & _ & _ & _ & H5 & _).
  split_and!; [exact H | exact H1 | exact (H5 eq_refl)].
Defined.

(** A negative value does not fall back to the default (C1): with
    [maxLineChars: -5] the budget is 5, not the 40 of a field
    constructed without the option. *)
Lemma constructor_maxLineChars_counterexample :
  getMaxLineChars
    (constructor (super_constructor (str "Text value"))
       (Some {[ "maxLineChars"%string := JInt (-5) ]})) = 5 /\
  getMaxLineChars (constructor (super_constructor (str "Text value")) None) = 40 /\
  getMaxLineChars
    (constructor (super_constructor (str "Text value"))
       (Some {[ "maxLineChars"%string := JInt (-5) ]})) <>
  getMaxLineChars (constructor (super_constructor (str "Text value")) None).
Proof. split_and!; [reflexivity | reflexivity | discriminate]. Qed.

(** C10: the flag is set only by the boolean [true].  Either the
    option is [true], the field stores [closeOnEnter_ = true] and Enter
    goes to the handler that ends the edit session; or it is anything
    else (a number, a string, absent), the field stores [false] and
    Enter goes to the multiline handler, which leaves the line break to
    the text area. *)
Theorem constructor_closeOnEnter (super_ : Inherited)
    (options : option (gmap string JsValue)) (v : JsValue) :
  default JUndefined (default ∅ options !! "closeOnEnter"%string) = v ->
  (v = JBool true /\
   closeOnEnter_ (constructor super_ options) = true /\
   onHtmlInputKeyDown_ (constructor super_ options) ENTER =
     FieldTextInput_onHtmlInputKeyDown_) \/
  (v <> JBool true /\
   closeOnEnter_ (constructor super_ options) = false /\
   onHtmlInputKeyDown_ (constructor super_ options) ENTER =
     FieldMultilineInput_onHtmlInputKeyDown_).
Proof.
  intros Hv. unfold onHtmlInputKeyDown_, constructor. cbn [closeOnEnter_].
  rewrite Hv. destruct v as [| |[|]| | | | |]; by (left + right).
Qed.

Lemma constructor_closeOnEnter_witness :
  default JUndefined
    (default ∅ (Some ({[ "closeOnEnter"%string := JInt 1 ]} : gmap string JsValue))
       !! "closeOnEnter"%string) = JInt 1 /\
  closeOnEnter_
    (constructor (super_constructor (str "Text value"))
       (Some {[ "closeOnEnter"%string := JInt 1 ]})) = false /\
  onHtmlInputKeyDown_
    (constructor (super_constructor (str "Text value"))
       (Some {[ "closeOnEnter"%string := JInt 1 ]})) ENTER =
    FieldMultilineInput_onHtmlInputKeyDown_.
Proof.
  assert (default JUndefined
            (default ∅ (Some ({[ "closeOnEnter"%string := JInt 1 ]}
                              : gmap string JsValue))
               !! "closeOnEnter"%string) = JInt 1) as H by reflexivity.
  split; [exact H|].
  destruct (constructor_closeOnEnter (super_constructor (str "Text value"))
              (Some {[ "closeOnEnter"%string := JInt 1 ]}) (JInt 1) H)
    as [(Hv & _)|(_ & Hflag & Hkey)]; [discriminate Hv | by split].
Defined.

Example closeOnEnter_string_true :
  closeOnEnter_
    (constructor (super_constructor (str "Text value"))
       (Some {[ "closeOnEnter"%string := JString (str "true") ]})) = false.
Proof. reflexivity. Qed.

Example closeOnEnter_absent :
  closeOnEnter_ (constructor (super_constructor (str "Text value")) None) = false /\
  closeOnEnter_ (constructor (super_constructor (str "Text value")) (Some ∅)) = false.
Proof. split; reflexivity. Qed.

Example closeOnEnter_true :
  closeOnEnter_
    (constructor (super_constructor (str "Text value"))
       (Some {[ "closeOnEnter"%string := JBool true ]})) = true.
Proof. reflexivity. Qed.

(** ** The layout sizer *)

Lemma max_width_app (w : Q) (xs ys : list Q) :
  max_width w (xs ++ ys) = max_width (max_width w xs) ys.
Proof. apply foldl_app. Qed.

Lemma max_width_spec (w : Q) (ws : list Q) :
  max_width w ws ∈ w :: ws /\
  Forall (fun x => (x <= max_width w ws)%Q) (w :: ws).
Proof.
  revert w. induction ws as [|x ws IH]; intros w.
  - split; [constructor|]. apply Forall_singleton, Qle_refl.
  - unfold max_width. cbn [foldl]. fold (max_width (if Qlt_le_dec w x then x else w) ws).
    destruct (IH (if Qlt_le_dec w x then x else w)) as [Hin Hle].
    apply Forall_cons in Hle as [Hle0 Hle].
    destruct (Qlt_le_dec w x) as [Hlt|Hge].
    + split.
      * by apply list_elem_of_further.
      * repeat (apply Forall_cons; split); try done.
        apply Qlt_le_weak in Hlt. by apply Qle_trans with x.
    + split.
      * apply elem_of_cons in Hin as [->|Hin]; [constructor|].
        by do 2 apply list_elem_of_further.
      * repeat (apply Forall_cons; split); try done.
        by apply Qle_trans with w.
Qed.

Lemma max_width_ge (w : Q) (ws : list Q) : (w <= max_width w ws)%Q.
Proof.
  destruct (max_width_spec w ws) as [_ Hle].
  by apply Forall_cons in Hle as [Hle _].
Qed.

Lemma measure_nodes_width (h : Host) (nodes : list jsstring) (i : nat) (w ht : Q) :
  (measure_nodes h nodes i w ht).1 = max_width w (getTextWidth h <$> nodes).
Proof.
  revert i w ht. induction nodes as [|tspan nodes IH]; intros i w ht; [done|].
  cbn [measure_nodes]. by rewrite IH.
Qed.

Lemma measure_editor_lines_width (h : Host) (m : Z) (lines : list jsstring) (w : Q) :
  measure_editor_lines h m lines w =
    max_width w ((fun line => getFastTextWidth h (display_line m line)) <$> lines).
Proof.
  revert w. induction lines as [|line lines IH]; intros w; [done|].
  cbn [measure_editor_lines]. by rewrite IH.
Qed.

(** After the first node every node adds the text height and the
    padding between rows. *)
Lemma measure_nodes_height_from (h : Host) (nodes : list jsstring) (i : nat) (w ht : Q) :
  ((measure_nodes h nodes (S i) w ht).2 ==
   ht + inject_Z (Z.of_nat (length nodes)) *
        (FIELD_TEXT_HEIGHT h + FIELD_BORDER_RECT_Y_PADDING h))%Q.
Proof.
  revert i w ht. induction nodes as [|tspan nodes IH]; intros i w ht.
  - simpl. ring.
  - cbn [measure_nodes]. rewrite IH.
    change (0 <? S i)%nat with true. cbv iota.
    rewrite length_cons, Nat2Z.inj_succ. unfold Z.succ. rewrite inject_Z_plus. ring.
Qed.

Lemma measure_nodes_height (h : Host) (tspan : jsstring) (nodes : list jsstring) (w : Q) :
  ((measure_nodes h (tspan :: nodes) 0 w 0).2 ==
   inject_Z (Z.of_nat (length (tspan :: nodes))) * FIELD_TEXT_HEIGHT h +
   (inject_Z (Z.of_nat (length (tspan :: nodes))) - 1) *
     FIELD_BORDER_RECT_Y_PADDING h)%Q.
Proof.
  cbn [measure_nodes]. rewrite measure_nodes_height_from.
  change (0 <? 0)%nat with false. cbv iota.
  rewrite length_cons, Nat2Z.inj_succ. unfold Z.succ. rewrite inject_Z_plus. ring.
Qed.

(** The size that [updateSize_] stores. *)
Lemma updateSize__size (h : Host) (this : t) :
  size_ (base (updateSize_ h this)) =
    let nodes := textGroup_ (base this) in
    let shown := max_width 0 (getTextWidth h <$> nodes) in
    let totalWidth :=
      if isBeingEdited_ (base this) then
        max_width shown
          ((fun line => getFastTextWidth h
                          (display_line (maxDisplayLength (base this)) line))
             <$> splitOnRows (value_ (base this)) (maxLineChars_ this))
      else shown in
    let totalHeight := (measure_nodes h nodes 0 0 0).2 in
    if borderRect_ (base this) then
      {| width := totalWidth + FIELD_BORDER_RECT_X_PADDING h * 2;
         height := totalHeight + FIELD_BORDER_RECT_Y_PADDING h * 2 |}
    else {| width := totalWidth; height := totalHeight |}.
Proof.
  unfold updateSize_. cbv zeta.
  rewrite <- (measure_nodes_width h (textGroup_ (base this)) 0 0 0).
  rewrite <- measure_editor_lines_width.
  destruct (measure_nodes h (textGroup_ (base this)) 0 0 0) as [tw th].
  cbn [fst snd].
  by destruct (isBeingEdited_ (base this)), (borderRect_ (base this)).
Qed.

(** C5: for the same field (value, budget, rendered nodes, border) and
    the same host metrics, the width computed while the field is being
    edited is at least the width computed in display mode.  The width
    while editing is, before the border padding, the greatest of the
    widths of the displayed rows and of the fast widths of the rows of
    the value, wrapped again and cut to [maxDisplayLength] (and of 0,
    the initial [totalWidth]). *)
Theorem updateSize__edit_width (h : Host) (this : t) :
  let e := width (size_ (base (updateSize_ h (set_base (with_isBeingEdited_ true) this)))) in
  let d := width (size_ (base (updateSize_ h (set_base (with_isBeingEdited_ false) this)))) in
  let ws :=
    (getTextWidth h <$> textGroup_ (base this)) ++
    ((fun line => getFastTextWidth h
                    (display_line (maxDisplayLength (base this)) line))
       <$> splitOnRows (value_ (base this)) (maxLineChars_ this)) in
  (d <= e)%Q /\
  exists M : Q,
    M ∈ 0%Q :: ws /\
    Forall (fun w => (w <= M)%Q) (0%Q :: ws) /\
    e = if borderRect_ (base this)
        then (M + FIELD_BORDER_RECT_X_PADDING h * 2)%Q else M.
Proof.
  cbv zeta. rewrite !updateSize__size. cbv zeta.
  cbn [set_base base with_isBeingEdited_ isBeingEdited_ textGroup_ borderRect_
       maxDisplayLength value_ maxLineChars_].
  set (shown := max_width 0 (getTextWidth h <$> textGroup_ (base this))).
  set (edits := (fun line => getFastTextWidth h _) <$> _).
  split.
  - pose proof (max_width_ge shown edits) as Hle.
    destruct (borderRect_ (base this)); cbn [width]; [|done].
    apply Qplus_le_compat; [done | apply Qle_refl].
  - exists (max_width shown edits). unfold shown.
    rewrite <- max_width_app.
    destruct (max_width_spec 0 ((getTextWidth h <$> textGroup_ (base this)) ++ edits))
      as [Hin Hle].
    split_and!; [done | done |]. by destruct (borderRect_ (base this)).
Qed.

(** [render_] leaves one node per row of the display text in the text
    group, and there is at least one row. *)
Lemma render__textGroup (h : Host) (this : t) :
  textGroup_ (base (render_ h this)) =
    replace_spaces NBSP <$> splitOnRows (getDisplayText_ this) (maxLineChars_ this) /\
  splitOnRows (getDisplayText_ this) (maxLineChars_ this) <> [].
Proof.
  split; [|apply splitOnRows_nonempty].
  unfold render_, updateSize_.
  destruct (measure_nodes _ _ _ _ _) as [tw th].
  by destruct (borderRect_ _).
Qed.

(** C9: for a text group of n rendered rows (a first node [tspan] and
    the nodes after it) the height is n text heights and n - 1 paddings
    between rows; with a border rectangle the padding is added on both
    sides of both dimensions: twice the vertical padding to the height
    and twice the horizontal padding to the width.  So it is for the
    rows that [render_] puts into the text group, n being the number of
    rows of the display text. *)
Theorem updateSize__height (h : Host) (this : t) :
  (forall (tspan : jsstring) (nodes : list jsstring),
     let n := inject_Z (Z.of_nat (length (tspan :: nodes))) in
     let rendered := set_base (with_textGroup_ (tspan :: nodes)) this in
     let plain :=
       size_ (base (updateSize_ h (set_base (with_borderRect_ false) rendered))) in
     let boxed :=
       size_ (base (updateSize_ h (set_base (with_borderRect_ true) rendered))) in
     (height plain ==
        n * FIELD_TEXT_HEIGHT h + (n - 1) * FIELD_BORDER_RECT_Y_PADDING h)%Q /\
     (height boxed == height plain + 2 * FIELD_BORDER_RECT_Y_PADDING h)%Q /\
     (width boxed == width plain + 2 * FIELD_BORDER_RECT_X_PADDING h)%Q) /\
  (let n := inject_Z (Z.of_nat
              (length (splitOnRows (getDisplayText_ this) (maxLineChars_ this)))) in
   let plain := size_ (base (render_ h (set_base (with_borderRect_ false) this))) in
   let boxed := size_ (base (render_ h (set_base (with_borderRect_ true) this))) in
   (height plain ==
      n * FIELD_TEXT_HEIGHT h + (n - 1) * FIELD_BORDER_RECT_Y_PADDING h)%Q /\
   (height boxed == height plain + 2 * FIELD_BORDER_RECT_Y_PADDING h)%Q /\
   (width boxed == width plain + 2 * FIELD_BORDER_RECT_X_PADDING h)%Q).
Proof.
  split.
  - intros tspan nodes. cbv zeta. rewrite !updateSize__size. cbv zeta.
    cbn [set_base base with_borderRect_ with_textGroup_ isBeingEdited_ textGroup_
         borderRect_ maxDisplayLength value_ maxLineChars_ width height].
    split_and!; [apply measure_nodes_height | ring | ring].
  - cbv zeta. unfold render_. rewrite !updateSize__size. cbv zeta.
    cbn [set_base base with_borderRect_ with_textGroup_ isBeingEdited_ textGroup_
         borderRect_ maxDisplayLength value_ maxLineChars_ width height].
    change (getDisplayText_ (set_base (with_borderRect_ false) this))
      with (getDisplayText_ this).
    change (getDisplayText_ (set_base (with_borderRect_ true) this))
      with (getDisplayText_ this).
    pose proof (splitOnRows_nonempty (getDisplayText_ this) (maxLineChars_ this))
      as Hne.
    rewrite <- (length_fmap (replace_spaces NBSP)).
    destruct (replace_spaces NBSP <$>
                splitOnRows (getDisplayText_ this) (maxLineChars_ this))
      as [|tspan nodes] eqn:E.
    { apply fmap_nil_inv in E. by destruct Hne. }
    split_and!; [apply measure_nodes_height | ring | ring].
Qed.

(** * Further properties of the row wrapper *)

Lemma join_app (sep : jsstring) (xs ys : list jsstring) :
  xs <> [] -> ys <> [] ->
  join sep (xs ++ ys) = join sep xs ++ sep ++ join sep ys.
Proof.
  intros Hxs Hys. induction xs as [|x xs IH]; [done|].
  destruct xs as [|x' xs].
  - destruct ys; done.
  - change (join sep ((x :: x' :: xs) ++ ys))
      with (x ++ sep ++ join sep ((x' :: xs) ++ ys)).
    rewrite IH by done.
    change (join sep (x :: x' :: xs)) with (x ++ sep ++ join sep (x' :: xs)).
    by rewrite <- !app_assoc.
Qed.

Lemma concat_nonempty (xss : list (list jsstring)) :
  xss <> [] -> Forall (fun xs => xs <> []) xss -> concat xss <> [].
Proof.
  intros Hne Hall. destruct Hall as [|xs xss Hxs _]; [done|].
  simpl. by destruct xs.
Qed.

(** Joining the rows of groups is joining all their tokens. *)
Lemma join_concat (sep : jsstring) (groups : list (list jsstring)) :
  Forall (fun g => g <> []) groups ->
  join sep (join sep <$> groups) = join sep (concat groups).
Proof.
  induction 1 as [|g groups Hg Hgroups IH]; [done|].
  destruct groups as [|g' groups].
  - simpl. by rewrite app_nil_r.
  - change (join sep (join sep <$> g :: g' :: groups))
      with (join sep g ++ sep ++ join sep (join sep <$> g' :: groups)).
    rewrite IH. cbn [concat]. rewrite (join_app sep g); [done | done |].
    by apply (concat_nonempty (g' :: groups)).
Qed.

Lemma wrap_join chars (p : jsstring) :
  join [SP] (wrap chars p) = replace_spaces SP p.
Proof.
  destruct (wrap_whole_tokens chars p) as (groups & Hcat & Hne & ->).
  by rewrite join_concat, Hcat, join_split_space.
Qed.

Lemma replace_spaces_lines (text : jsstring) :
  join [SP] (replace_spaces SP <$> split nl text) = replace_spaces SP text.
Proof.
  unfold replace_spaces. induction text as [|c text IH]; [done|].
  rewrite (fmap_cons _ c text), <- IH. cbn [split].
  destruct (split nl text) as [|piece pieces] eqn:E;
    [by apply split_nonempty in E|].
  unfold nl at 1. destruct (N.eqb_spec c LF) as [->|Hc]; [done|].
  destruct pieces; done.
Qed.

Lemma wraps_join chars (ps : list jsstring) :
  ps <> [] ->
  join [SP] (concat (wrap chars <$> ps)) = join [SP] (replace_spaces SP <$> ps).
Proof.
  induction ps as [|p ps IH]; [done|]. intros _.
  destruct ps as [|p' ps].
  - simpl. rewrite app_nil_r. apply wrap_join.
  - rewrite (fmap_cons (wrap chars)). cbn [concat].
    rewrite join_app, IH, wrap_join; [done | done | apply wrap_nonempty |].
    apply (concat_nonempty (wrap chars <$> p' :: ps)); [done|].
    apply Forall_fmap, Forall_forall. intros ? _. apply wrap_nonempty.
Qed.

Lemma splitOnRows_join (text : jsstring) chars :
  join [SP] (splitOnRows text chars) = replace_spaces SP text.
Proof.
  rewrite splitOnRows_concat, wraps_join by apply split_nonempty.
  apply replace_spaces_lines.
Qed.

(** X1: wrapping loses nothing and reorders nothing: the rows, joined
    by single spaces, are the text with every white space code unit
    (line breaks included) replaced by a space. *)
Theorem splitOnRows_join_spaces (text : jsstring) (chars : Z) :
  join [SP] (splitOnRows text chars) = replace_spaces SP text /\
  length (join [SP] (splitOnRows text chars)) = length text.
Proof.
  split; [apply splitOnRows_join|].
  rewrite splitOnRows_join. unfold replace_spaces. by rewrite length_fmap.
Qed.

Lemma add_words_length chars (ws rows : list jsstring) :
  (length rows <= length (foldl (add_word chars) rows ws) <= length rows + length ws)%nat.
Proof.
  revert rows. induction ws as [|w ws IH]; intros rows; simpl; [lia|].
  specialize (IH (add_word chars rows w)).
  pose proof (add_word_length chars rows w).
  assert (length (add_word chars rows w) <= S (length rows))%nat.
  { unfold add_word. destruct (_ <? _).
    - rewrite length_insert. lia.
    - rewrite length_app. simpl. lia. }
  lia.
Qed.

Lemma wrap_length chars (p : jsstring) :
  (1 <= length (wrap chars p) <= length (split space p))%nat.
Proof.
  unfold wrap, add_paragraph.
  destruct (split space p) as [|w0 ws] eqn:E; [by apply split_nonempty in E|].
  pose proof (add_words_length chars ws ([] ++ [w0])). simpl in *. lia.
Qed.

Lemma length_concat_fmap (f g : jsstring -> list jsstring) (ps : list jsstring) :
  (forall p, length (f p) <= length (g p))%nat ->
  (length (concat (f <$> ps)) <= length (concat (g <$> ps)))%nat.
Proof.
  intros Hfg. induction ps as [|p ps IH]; [done|].
  rewrite !fmap_cons. cbn [concat]. rewrite !length_app.
  specialize (Hfg p). lia.
Qed.

(** X2: there is at least one row, at least one row for every line of
    the text, and never more rows than tokens. *)
Theorem splitOnRows_row_count (text : jsstring) (chars : Z) :
  (1 <= length (splitOnRows text chars))%nat /\
  (length (split nl text) <= length (splitOnRows text chars))%nat /\
  (length (splitOnRows text chars) <=
     length (concat (split space <$> split nl text)))%nat.
Proof.
  rewrite splitOnRows_concat.
  assert (length (split nl text) <= length (concat (wrap chars <$> split nl text)))%nat
    as Hlines.
  { pose proof (length_concat_fmap (fun p => [p]) (wrap chars) (split nl text)) as H.
    assert (forall ps : list jsstring, concat ((fun p => [p]) <$> ps) = ps) as Hid.
    { induction ps as [|? ? IH]; [done|]. rewrite fmap_cons. simpl. by rewrite IH. }
    rewrite Hid in H. apply H. intros p. simpl. apply wrap_length. }
  split_and!.
  - assert (1 <= length (split nl text))%nat; [|lia].
    destruct (split nl text) eqn:E; [by apply split_nonempty in E | simpl; lia].
  - done.
  - apply length_concat_fmap. intros p. apply wrap_length.
Qed.

(** With a larger budget the loop stays ahead: a token that is
    appended at the smaller budget is appended at the larger one. *)
Lemma add_word_ahead (b b' : Z) (rows rows' : list jsstring) (w : jsstring) :
  b <= b' -> ahead rows' rows -> ahead (add_word b' rows' w) (add_word b rows w).
Proof.
  intros Hb (init & init' & cur & cur' & -> & -> & Hahead).
  rewrite !add_word_snoc.
  destruct (Z.ltb_spec (Z.of_nat (length w) + Z.of_nat (length cur) + 1) b),
           (Z.ltb_spec (Z.of_nat (length w) + Z.of_nat (length cur') + 1) b').
  - exists init, init', (cur ++ SP :: w), (cur' ++ SP :: w).
    split_and!; [done..|]. rewrite !length_app. simpl. lia.
  - exists init, (init' ++ [cur']), (cur ++ SP :: w), w.
    split_and!; [done | by rewrite <- app_assoc |].
    rewrite !length_app. simpl. lia.
  - exists (init ++ [cur]), init', w, (cur' ++ SP :: w).
    split_and!; [by rewrite <- app_assoc | done |].
    rewrite !length_app. simpl. lia.
  - exists (init ++ [cur]), (init' ++ [cur']), w, w.
    split_and!; [by rewrite <- app_assoc.. |].
    rewrite !length_app. simpl. lia.
Qed.

Lemma add_words_ahead (b b' : Z) (ws rows rows' : list jsstring) :
  b <= b' -> ahead rows' rows ->
  ahead (foldl (add_word b') rows' ws) (foldl (add_word b) rows ws).
Proof.
  intros Hb. revert rows rows'.
  induction ws as [|w ws IH]; intros rows rows' Hahead; [done|].
  simpl. by apply IH, add_word_ahead.
Qed.

Lemma ahead_length (rows' rows : list jsstring) :
  ahead rows' rows -> (length rows' <= length rows)%nat.
Proof.
  intros (init & init' & cur & cur' & -> & -> & H).
  rewrite !length_app. simpl. lia.
Qed.

Lemma wrap_budget_monotone (b b' : Z) (p : jsstring) :
  b <= b' -> (length (wrap b' p) <= length (wrap b p))%nat.
Proof.
  intros Hb. unfold wrap, add_paragraph.
  destruct (split space p) as [|w0 ws]; [done|].
  apply ahead_length, add_words_ahead; [done|].
  exists [], [], w0, w0. split_and!; [done..|]. right. split; lia.
Qed.

(** X3: a larger budget never gives more rows. *)
Theorem splitOnRows_budget_monotone (text : jsstring) (b b' : Z) :
  b <= b' ->
  (length (splitOnRows text b') <= length (splitOnRows text b))%nat.
Proof.
  intros Hb. rewrite !splitOnRows_concat.
  apply length_concat_fmap. intros p. by apply wrap_budget_monotone.
Qed.

Lemma splitOnRows_budget_monotone_witness :
  5 <= 6 /\
  (length (splitOnRows (str "aa bb") 6) <= length (splitOnRows (str "aa bb") 5))%nat.
Proof.
  assert (5 <= 6) as H by lia.
  split; [exact H|]. exact (splitOnRows_budget_monotone (str "aa bb") 5 6 H).
Defined.

Lemma greedy_row_spaces chars (r : jsstring) :
  greedy_row chars r -> Forall (fun c => space c = true -> c = SP) r.
Proof.
  assert (forall w, free space w -> Forall (fun c => space c = true -> c = SP) w)
    as Hfree.
  { intros w. unfold free. apply List.Forall_impl. intros c Hc. by rewrite Hc. }
  induction 1 as [w Hw|cur w _ IH Hw _]; [by apply Hfree|].
  apply Forall_app. split; [done|]. constructor; [done | by apply Hfree].
Qed.

(** X4: the only white space in a row is the space: no row holds a
    line break, a tab or a no-break space of the text. *)
Theorem splitOnRows_rows_spaces (text : jsstring) (chars : Z) :
  Forall (Forall (fun c => space c = true -> c = SP)) (splitOnRows text chars).
Proof.
  pose proof (splitOnRows_greedy text chars) as H. revert H.
  apply List.Forall_impl. apply greedy_row_spaces.
Qed.

Lemma wrap_fits chars (p : jsstring) :
  Z.of_nat (length p) < chars -> wrap chars p = [replace_spaces SP p].
Proof.
  intros Hlen. unfold wrap, add_paragraph. rewrite <- join_split_space.
  assert (length (join [SP] (split space p)) = length p) as Hjoin.
  { rewrite join_split_space. unfold replace_spaces. by rewrite length_fmap. }
  destruct (split space p) as [|w0 ws] eqn:E; [by apply split_nonempty in E|].
  apply add_words_fit. lia.
Qed.

(** X5: a text whose lines are all shorter than the budget is not
    wrapped: there is one row per line, the line with its white space
    turned into spaces. *)
Theorem splitOnRows_short_lines (text : jsstring) (chars : Z) :
  Forall (fun p => Z.of_nat (length p) < chars) (split nl text) ->
  splitOnRows text chars = replace_spaces SP <$> split nl text.
Proof.
  intros Hshort. rewrite splitOnRows_concat.
  induction Hshort as [|p ps Hp _ IH]; [done|].
  rewrite !fmap_cons. cbn [concat]. by rewrite IH, wrap_fits.
Qed.

Lemma splitOnRows_short_lines_witness :
  Forall (fun p => Z.of_nat (length p) < 10)
    (split nl (str "ab cd" ++ LF :: str "ef")) /\
  splitOnRows (str "ab cd" ++ LF :: str "ef") 10 =
    replace_spaces SP <$> split nl (str "ab cd" ++ LF :: str "ef").
Proof.
  assert (Forall (fun p => Z.of_nat (length p) < 10)
            (split nl (str "ab cd" ++ LF :: str "ef"))) as H.
  { repeat constructor. }
  split; [exact H|].
  exact (splitOnRows_short_lines (str "ab cd" ++ LF :: str "ef") 10 H).
Defined.

Lemma add_words_narrow chars (ws rows : list jsstring) :
  chars <= 1 -> rows <> [] -> foldl (add_word chars) rows ws = rows ++ ws.
Proof.
  intros Hchars. revert rows.
  induction ws as [|w ws IH]; intros rows Hne; [by rewrite app_nil_r|].
  simpl. destruct (exists_last Hne) as (init & cur & ->).
  rewrite add_word_snoc.
  destruct (Z.ltb_spec (Z.of_nat (length w) + Z.of_nat (length cur) + 1) chars);
    [lia|].
  rewrite IH by (by destruct init). by rewrite <- !app_assoc.
Qed.

(** X6: at a budget of 1 or less nothing is ever appended: every
    token, empty tokens included, is a row of its own. *)
Theorem splitOnRows_budget_one (text : jsstring) (chars : Z) :
  chars <= 1 ->
  splitOnRows text chars = concat (split space <$> split nl text).
Proof.
  intros Hchars. rewrite splitOnRows_concat. f_equal.
  apply list_fmap_ext. intros _ p _. unfold wrap, add_paragraph.
  destruct (split space p) as [|w0 ws]; [done|].
  by rewrite add_words_narrow.
Qed.

Lemma splitOnRows_budget_one_witness :
  1 <= 1 /\
  splitOnRows (str "a  b") 1 = concat (split space <$> split nl (str "a  b")).
Proof.
  assert (1 <= 1) as H by lia.
  split; [exact H|]. exact (splitOnRows_budget_one (str "a  b") 1 H).
Defined.

Lemma splitOnRows_paragraph chars (p : jsstring) :
  free nl p -> splitOnRows p chars = wrap chars p.
Proof.
  intros Hp. rewrite splitOnRows_concat, split_free by done.
  simpl. by rewrite app_nil_r.
Qed.

(** X7: wrapping goes line by line.  The rows of two texts put
    together with a line break are the rows of the first followed by
    the rows of the second, and the rows of any text are the rows of
    its lines, each wrapped on its own. *)
Theorem splitOnRows_lines (text rest : jsstring) (chars : Z) :
  splitOnRows (text ++ LF :: rest) chars =
    splitOnRows text chars ++ splitOnRows rest chars /\
  splitOnRows text chars =
    concat ((fun p => splitOnRows p chars) <$> split nl text).
Proof.
  split; [apply splitOnRows_line_break|].
  rewrite splitOnRows_concat. f_equal.
  apply Forall_fmap_ext, Forall_forall. intros p Hp.
  symmetry. apply splitOnRows_paragraph.
  pose proof (split_pieces_free nl text) as Hfree.
  rewrite Forall_forall in Hfree. by apply Hfree.
Qed.

(** * Further properties of rendering and sizing *)

Lemma replace_spaces_length (r : code_unit) (s : jsstring) :
  length (replace_spaces r s) = length s.
Proof. unfold replace_spaces. by rewrite length_fmap. Qed.

Lemma replace_spaces_only (s : jsstring) :
  Forall (fun c => space c = true -> c = NBSP) (replace_spaces NBSP s).
Proof.
  unfold replace_spaces. apply Forall_fmap, Forall_forall. intros c _. simpl.
  destruct (space c) eqn:Hc; [done | by rewrite Hc].
Qed.

(** X8: [render_] leaves one node per row of the display text, at
    least one; a node is as long as its row, and the only white space
    in it is the no-break space, so that no node holds a space, a tab
    or a line break. *)
Theorem render__nodes (h : Host) (this : t) :
  (1 <= length (textGroup_ (base (render_ h this))))%nat /\
  Forall2 (fun row node =>
             length node = length row /\
             Forall (fun c => space c = true -> c = NBSP) node)
    (splitOnRows (getDisplayText_ this) (maxLineChars_ this))
    (textGroup_ (base (render_ h this))).
Proof.
  destruct (render__textGroup h this) as [-> Hne]. split.
  - rewrite length_fmap.
    destruct (splitOnRows _ _); [done | simpl; lia].
  - apply Forall2_fmap_r, Forall_Forall2_diag, Forall_forall. intros row _.
    split; [apply replace_spaces_length | apply replace_spaces_only].
Qed.



(** [updateSize_] writes the size and nothing else. *)
Lemma updateSize__writes (h : Host) (this : t) :
  updateSize_ h this =
    set_base (with_size_ (size_ (base (updateSize_ h this)))) this.
Proof.
  unfold updateSize_.
  destruct (measure_nodes _ _ _ _ _) as [tw th].
  by destruct (borderRect_ _).
Qed.

Lemma render__writes (h : Host) (this : t) :
  render_ h this =
    set_base
      (fun b =>
         with_size_ (size_ (base (render_ h this)))
           (with_textGroup_
              (replace_spaces NBSP <$>
                 splitOnRows (getDisplayText_ this) (maxLineChars_ this)) b))
      this.
Proof. unfold render_ at 1. by rewrite updateSize__writes. Qed.

(** X10: the nodes and the size that [render_] computes come from the
    value alone, not from what was rendered before: whatever nodes the
    text group held and whatever size was stored, [render_] leaves the
    same nodes and the same size.  So a second [render_] gives the
    nodes and the size of the first: nodes do not pile up. *)
Theorem render__idempotent (h : Host) (this : t) :
  (forall (nodes : list jsstring) (s : Size),
     textGroup_ (base (render_ h
       (set_base (fun b => with_size_ s (with_textGroup_ nodes b)) this))) =
       textGroup_ (base (render_ h this)) /\
     size_ (base (render_ h
       (set_base (fun b => with_size_ s (with_textGroup_ nodes b)) this))) =
       size_ (base (render_ h this))) /\
  textGroup_ (base (render_ h (render_ h this))) =
    textGroup_ (base (render_ h this)) /\
  size_ (base (render_ h (render_ h this))) = size_ (base (render_ h this)).
Proof.
  assert (forall (nodes : list jsstring) (s : Size),
            textGroup_ (base (render_ h
              (set_base (fun b => with_size_ s (with_textGroup_ nodes b)) this))) =
              textGroup_ (base (render_ h this)) /\
            size_ (base (render_ h
              (set_base (fun b => with_size_ s (with_textGroup_ nodes b)) this))) =
              size_ (base (render_ h this))) as Hstale.
  { intros nodes s. split.
    - destruct (render__textGroup h this) as [-> _].
      by destruct (render__textGroup h
           (set_base (fun b => with_size_ s (with_textGroup_ nodes b)) this))
        as [-> _].
    - unfold render_. by rewrite !updateSize__size. }
  split; [exact Hstale|].
  rewrite (render__writes h this) at 1 3. apply Hstale.
Qed.

(** X11: the edit session does not change the height.  In display
    mode the width is, before the border padding, the greatest of 0
    and the widths of the nodes, so it is never negative. *)
Theorem updateSize__display (h : Host) (this : t) :
  let editing := updateSize_ h (set_base (with_isBeingEdited_ true) this) in
  let display := updateSize_ h (set_base (with_isBeingEdited_ false) this) in
  let ws := getTextWidth h <$> textGroup_ (base this) in
  height (size_ (base editing)) = height (size_ (base display)) /\
  exists M : Q,
    (0 <= M)%Q /\ M ∈ 0%Q :: ws /\ Forall (fun w => (w <= M)%Q) ws /\
    width (size_ (base display)) =
      if borderRect_ (base this)
      then (M + FIELD_BORDER_RECT_X_PADDING h * 2)%Q else M.
Proof.
  cbv zeta. rewrite !updateSize__size. cbv zeta.
  cbn [set_base base with_isBeingEdited_ isBeingEdited_ textGroup_ borderRect_
       maxDisplayLength value_ maxLineChars_].
  split; [by destruct (borderRect_ (base this))|].
  exists (max_width 0 (getTextWidth h <$> textGroup_ (base this))).
  destruct (max_width_spec 0 (getTextWidth h <$> textGroup_ (base this)))
    as [Hin Hle].
  apply Forall_cons in Hle as [H0 Hle].
  split_and!; [done..|]. by destruct (borderRect_ (base this)).
Qed.

(** The height and the width after [render_], by the number of rows. *)
Lemma render__box (h : Host) (this : t) :
  let n := inject_Z (Z.of_nat
             (length (splitOnRows (getDisplayText_ this) (maxLineChars_ this)))) in
  let plain := size_ (base (render_ h (set_base (with_borderRect_ false) this))) in
  let boxed := size_ (base (render_ h (set_base (with_borderRect_ true) this))) in
  (height boxed ==
     n * FIELD_TEXT_HEIGHT h + (n + 1) * FIELD_BORDER_RECT_Y_PADDING h)%Q /\
  (width boxed == width plain + 2 * FIELD_BORDER_RECT_X_PADDING h)%Q.
Proof.
  cbv zeta. unfold render_. rewrite !updateSize__size. cbv zeta.
  cbn [set_base base with_borderRect_ with_textGroup_ isBeingEdited_ textGroup_
       borderRect_ maxDisplayLength value_ maxLineChars_ width height].
  change (getDisplayText_ (set_base (with_borderRect_ false) this))
    with (getDisplayText_ this).
  change (getDisplayText_ (set_base (with_borderRect_ true) this))
    with (getDisplayText_ this).
  pose proof (splitOnRows_nonempty (getDisplayText_ this) (maxLineChars_ this))
    as Hne.
  rewrite <- (length_fmap (replace_spaces NBSP)).
  destruct (replace_spaces NBSP <$>
              splitOnRows (getDisplayText_ this) (maxLineChars_ this))
    as [|tspan nodes] eqn:E.
  { apply fmap_nil_inv in E. by destruct Hne. }
  split; [|ring]. rewrite measure_nodes_height. ring.
Qed.

Lemma render_lines_lookup (h : Host) (baseline : Q) (lines : list jsstring)
    (y : Q) (i : nat) (node : TextNode) :
  render_lines h baseline lines y !! i = Some node ->
  attr_x node = FIELD_BORDER_RECT_X_PADDING h /\
  (attr_y node ==
     y + inject_Z (Z.of_nat i) *
           (FIELD_TEXT_HEIGHT h + FIELD_BORDER_RECT_Y_PADDING h) +
     FIELD_BORDER_RECT_Y_PADDING h)%Q /\
  (i < length lines)%nat.
Proof.
  revert y i. induction lines as [|line lines IH]; intros y i Hnode; [done|].
  destruct i as [|i]; cbn [render_lines] in Hnode.
  - injection Hnode as <-. simpl. split_and!; [done | ring | lia].
  - apply IH in Hnode as (Hx & Hy & Hi). split_and!; [done | | simpl; lia].
    rewrite Hy, Nat2Z.inj_succ. unfold Z.succ. rewrite inject_Z_plus. ring.
Qed.

Lemma render_lines_text (h : Host) (baseline : Q) (lines : list jsstring) (y : Q) :
  textContent <$> render_lines h baseline lines y = replace_spaces NBSP <$> lines.
Proof.
  revert y. induction lines as [|line lines IH]; intros y; [done|].
  cbn [render_lines]. by rewrite !fmap_cons, IH.
Qed.

(** X12: the nodes are laid out inside the bordered box.  The node of
    row i sits at x = the horizontal padding and at
    y = i (text height + padding) + padding, and below its text band
    there are the bands of the rows after it and one padding: the
    first band begins one padding under the top of the box and the
    last band ends one padding above its bottom. *)
Theorem render_nodes_placement (h : Host) (baseline : Q) (this : t)
    (i : nat) (node : TextNode) :
  render_nodes h baseline this !! i = Some node ->
  textContent <$> render_nodes h baseline this = textGroup_ (base (render_ h this)) /\
  attr_x node = FIELD_BORDER_RECT_X_PADDING h /\
  (attr_y node ==
     inject_Z (Z.of_nat i) * (FIELD_TEXT_HEIGHT h + FIELD_BORDER_RECT_Y_PADDING h) +
     FIELD_BORDER_RECT_Y_PADDING h)%Q /\
  (attr_y node + FIELD_TEXT_HEIGHT h + FIELD_BORDER_RECT_Y_PADDING h +
   (inject_Z (Z.of_nat
      (length (splitOnRows (getDisplayText_ this) (maxLineChars_ this)))) - 1 -
    inject_Z (Z.of_nat i)) *
     (FIELD_TEXT_HEIGHT h + FIELD_BORDER_RECT_Y_PADDING h) ==
   height (size_ (base (render_ h (set_base (with_borderRect_ true) this)))))%Q.
Proof.
  unfold render_nodes. intros Hnode.
  apply render_lines_lookup in Hnode as (Hx & Hy & _).
  destruct (render__box h this) as [Hheight _]. cbv zeta in Hheight.
  destruct (render__textGroup h this) as [-> _].
  split_and!; [apply render_lines_text | done | rewrite Hy; ring |].
  rewrite Hheight, Hy. ring.
Qed.

Lemma render_nodes_placement_witness :
  render_nodes example_host 12
    (constructor (super_constructor (str "aa bb")) None) !! 0%nat =
    Some {| attr_x := 5; attr_y := 3; attr_dy := 12;
            textContent := replace_spaces NBSP (str "aa bb") |} /\
  (3 == inject_Z (Z.of_nat 0) * (16 + 3) + 3)%Q.
Proof.
  assert (render_nodes example_host 12
            (constructor (super_constructor (str "aa bb")) None) !! 0%nat =
          Some {| attr_x := 5; attr_y := 3; attr_dy := 12;
                  textContent := replace_spaces NBSP (str "aa bb") |}) as H
    by reflexivity.
  split; [exact H|].
  exact (proj1 (proj2 (proj2 (render_nodes_placement example_host 12
                 (constructor (super_constructor (str "aa bb")) None) 0 _ H)))).
Defined.

(** X13: the text area fits the bordered field.  Its line height is
    the scaled distance between rows, and for the n rows of the field
    its n lines and its top and bottom padding are as high as the
    scaled height of the field with its border; its left and right
    padding are the scaled horizontal padding of the border. *)
Theorem widgetCreate__box (h : Host) (e : Editor) (this : t) :
  let n := inject_Z (Z.of_nat
             (length (splitOnRows (getDisplayText_ this) (maxLineChars_ this)))) in
  let area := widgetCreate_ h e this in
  let plain := size_ (base (render_ h (set_base (with_borderRect_ false) this))) in
  let boxed := size_ (base (render_ h (set_base (with_borderRect_ true) this))) in
  (n * style_lineHeight area + style_paddingTop area + style_paddingBottom area ==
     scale e * height boxed)%Q /\
  (scale e * width plain + style_paddingLeft area + style_paddingRight area ==
     scale e * width boxed)%Q.
Proof.
  cbv zeta. destruct (render__box h this) as [Hheight Hwidth].
  cbv zeta in Hheight, Hwidth. rewrite Hheight, Hwidth.
  unfold widgetCreate_. cbn [style_lineHeight style_paddingTop style_paddingBottom
                             style_paddingLeft style_paddingRight].
  split; field.
Qed.




(** ** String options *)

Lemma trim_start_pad (pad s : jsstring) :
  Forall (fun c => space c = true) pad -> trim_start (pad ++ s) = trim_start s.
Proof. induction 1 as [|c pad Hc _ IH]; [done|]. simpl. by rewrite Hc. Qed.

Lemma uint_units_digits (d : Decimal.uint) :
  Forall (fun c => is_Some (digit c)) (uint_units d).
Proof. induction d; constructor; by eauto. Qed.

(** The digits are read up to the first code unit that is no digit. *)
Lemma parse_digits_rest (s rest : jsstring) (acc : Z) :
  Forall (fun c => is_Some (digit c)) s ->
  match rest with [] => True | c :: _ => digit c = None end ->
  parse_digits (s ++ rest) acc = parse_digits s acc.
Proof.
  intros Hs Hrest. revert acc.
  induction Hs as [|c s [d Hd] _ IH]; intros acc.
  - destruct rest as [|c rest]; [done|]. simpl. by rewrite Hrest.
  - simpl. rewrite Hd. apply IH.
Qed.

Lemma parseInt10_string_padded (pad rest : jsstring) (z : Z) :
  Forall (fun c => space c = true) pad ->
  match rest with [] => True | c :: _ => digit c = None end ->
  parseInt10_string (pad ++ int_to_string z ++ rest) = Num z.
Proof.
  intros Hpad Hrest.
  assert (parseInt10_string (pad ++ int_to_string z ++ rest) =
          parseInt10_string (int_to_string z ++ rest)) as ->.
  { unfold parseInt10_string. by rewrite trim_start_pad. }
  unfold int_to_string. rewrite <- (DecimalZ.of_to z) at 2. unfold Z.of_int.
  assert (forall d, Z.to_int z = Decimal.Pos d \/ Z.to_int z = Decimal.Neg d ->
            d <> Decimal.Nil) as Hnil.
  { intros d. destruct z as [|p|p]; simpl; intros [H|H]; inversion H;
      try done; apply Unsigned.to_uint_nonnil. }
  destruct (Z.to_int z) as [d|d];
    (destruct (uint_units_head d) as (c & s & E & Hc); [by eauto|]);
    unfold Z.of_uint; rewrite <- parse_digits_uint;
    rewrite <- (parse_digits_rest (uint_units d) rest) by
      (done || apply uint_units_digits);
    rewrite E; by apply parseInt10_string_digits.
Qed.

(** X15: a string option is read as [parseInt] reads it: white space
    before the number and whatever follows its digits are ignored.
    The strings "25", " 25" and "25px" give the budget 25, "-5" gives
    5, and "0px" gives the default. *)
Theorem constructor_maxLineChars_string (super_ : Inherited)
    (options : gmap string JsValue) (pad rest : jsstring) (z : Z) :
  Forall (fun c => space c = true) pad ->
  match rest with [] => True | c :: _ => digit c = None end ->
  Z.abs z < 2 ^ 53 ->
  options !! "maxLineChars"%string = Some (JString (pad ++ int_to_string z ++ rest)) ->
  getMaxLineChars (constructor super_ (Some options)) =
    if z =? 0 then DEFAULT_LINE_CHARS else Z.abs z.
Proof.
  intros Hpad Hrest _ Hoption. unfold getMaxLineChars, constructor.
  cbn [maxLineChars_ from_option id]. rewrite Hoption. cbn [from_option id].
  unfold parseInt10, ToString. rewrite parseInt10_string_padded by done.
  simpl. destruct (Z.eqb_spec z 0) as [->|Hz]; [done|].
  destruct (Z.eqb_spec (Z.abs z) 0); [lia | done].
Qed.

Lemma constructor_maxLineChars_string_witness :
  Forall (fun c => space c = true) (str " ") /\
  match str "px" with [] => True | c :: _ => digit c = None end /\
  Z.abs 25 < 2 ^ 53 /\
  ({[ "maxLineChars"%string := JString (str " 25px") ]} : gmap string JsValue)
    !! "maxLineChars"%string = Some (JString (str " " ++ int_to_string 25 ++ str "px")) /\
  getMaxLineChars
    (constructor (super_constructor (str "Text value"))
       (Some {[ "maxLineChars"%string := JString (str " 25px") ]})) = 25.
Proof.
  assert (Forall (fun c => space c = true) (str " ")) as H1 by (repeat constructor).
  assert (match str "px" with [] => True | c :: _ => digit c = None end) as H2
    by reflexivity.
  assert (Z.abs 25 < 2 ^ 53) as H3 by reflexivity.
  assert (({[ "maxLineChars"%string := JString (str " 25px") ]} : gmap string JsValue)
            !! "maxLineChars"%string =
          Some (JString (str " " ++ int_to_string 25 ++ str "px"))) as H4
    by reflexivity.
  split_and!; [exact H1 | exact H2 | exact H3 | exact H4 |].
  exact (constructor_maxLineChars_string (super_constructor (str "Text value"))
           _ (str " ") (str "px") 25 H1 H2 H3 H4).
Defined.

(** * Further properties: bounds and keys *)

(** X16: a text without white space is never wrapped and never cut:
    it is the one row, whatever the budget. *)
Theorem splitOnRows_one_token (text : jsstring) (chars : Z) :
  free space text -> splitOnRows text chars = [text].
Proof.
  intros Htext. rewrite splitOnRows_paragraph by by apply free_space_nl.
  unfold wrap, add_paragraph. by rewrite split_free.
Qed.

Lemma splitOnRows_one_token_witness :
  free space (str "abcdef") /\ splitOnRows (str "abcdef") 3 = [str "abcdef"].
Proof.
  assert (free space (str "abcdef")) as H by (repeat constructor).
  split; [exact H|]. exact (splitOnRows_one_token (str "abcdef") 3 H).
Defined.

(** X17: when every token of the text is shorter than the budget, so
    is every row: no row has more than budget - 1 code units. *)
Theorem splitOnRows_short_tokens (text : jsstring) (chars : Z) :
  Forall (fun p => Forall (fun w => Z.of_nat (length w) < chars) (split space p))
    (split nl text) ->
  Forall (fun r => Z.of_nat (length r) <= chars - 1) (splitOnRows text chars).
Proof.
  intros Hshort. rewrite splitOnRows_concat.
  apply Forall_concat, Forall_fmap. revert Hshort. apply List.Forall_impl.
  intros p Hp. apply Forall_forall. intros r Hr.
  unfold wrap, add_paragraph in Hr.
  destruct (split space p) as [|w0 ws] eqn:E; [by apply split_nonempty in E|].
  simpl in Hr. apply add_words_bound in Hr as [Hlt|Hin]; [lia|].
  rewrite Forall_forall in Hp. specialize (Hp r Hin). lia.
Qed.

Lemma splitOnRows_short_tokens_witness :
  Forall (fun p => Forall (fun w => Z.of_nat (length w) < 6) (split space p))
    (split nl (str "aa bb cc")) /\
  Forall (fun r => Z.of_nat (length r) <= 6 - 1) (splitOnRows (str "aa bb cc") 6).
Proof.
  assert (Forall (fun p => Forall (fun w => Z.of_nat (length w) < 6) (split space p))
            (split nl (str "aa bb cc"))) as H by (repeat constructor).
  split; [exact H|]. exact (splitOnRows_short_tokens (str "aa bb cc") 6 H).
Defined.

(** X18: the Enter flag changes the handling of Enter only.  A key
    event of a constructed field goes to the handler of
    [Blockly.FieldTextInput] exactly when the key is Enter and the
    option [closeOnEnter] is the boolean [true]; every other key goes
    to the multiline handler whatever the option is. *)
Theorem onHtmlInputKeyDown__dispatch (super_ : Inherited)
    (options : option (gmap string JsValue)) (keyCode : Z) :
  (onHtmlInputKeyDown_ (constructor super_ options) keyCode =
     FieldTextInput_onHtmlInputKeyDown_ <->
   keyCode = ENTER /\
   default JUndefined (default ∅ options !! "closeOnEnter"%string) = JBool true) /\
  (onHtmlInputKeyDown_ (constructor super_ options) keyCode =
     FieldMultilineInput_onHtmlInputKeyDown_ <->
   keyCode <> ENTER \/
   default JUndefined (default ∅ options !! "closeOnEnter"%string) <> JBool true).
Proof.
  unfold onHtmlInputKeyDown_, constructor. cbn [closeOnEnter_].
  destruct (Z.eqb_spec keyCode ENTER) as [->|Hkey];
    destruct (default JUndefined _) as [| |[|]| | | | |];
    simpl; split; split; (intros [? ?] || intros [?|?] || intros ?);
    try done; try (by left); try (by right); by split.
Qed.
